(** * bench/manager.go: the benchmark orchestrator (Manager)

    A shallow embedding of [Manager] from [bench/manager.go]: the score
    ledger, the error budget, the investor registry, the scheduling tick
    [Next], the initial population [Start] and the identity prefetch loop.

    Conventions.
    - Go's [int64] and [int] (64 bit) are [Z] with the wrap-around written
      out ([wrap64]); [uint] is [Z] reduced modulo 2^64 ([wrapU64]).
    - A Go [error] value is [option error]: [None] is [nil].
    - Every method is a function on the [Manager] record.  The locks are
      not modelled: each method runs atomically.
    - Collaborators that live outside this file (investors, clients, the
      bank, the task engine) appear through what the manager observes of
      them; calls made on them are recorded as traces in the state. *)

From Stdlib Require Import String ZArith List Bool Lia Permutation.
Import ListNotations.
Open Scope list_scope.
Open Scope Z_scope.

(** ** Machine integers *)

Definition wrap64 (z : Z) : Z := (z + 2 ^ 63) mod 2 ^ 64 - 2 ^ 63.
Definition wrapU64 (z : Z) : Z := z mod 2 ^ 64.

Definition min_int64 : Z := - 2 ^ 63.
Definition max_int64 : Z := 2 ^ 63 - 1.
Definition in_int64 (z : Z) : Prop := min_int64 <= z <= max_int64.

Definition add64 (a b : Z) : Z := wrap64 (a + b).
Definition sub64 (a b : Z) : Z := wrap64 (a - b).
Definition mul64 (a b : Z) : Z := wrap64 (a * b).
(** Go's [/] truncates toward zero.  The manager only divides by the
    constants 20 and [AllowErrorMax * 2], never by 0 or -1, so the quotient
    of an [int64] is an [int64] and nothing wraps. *)
Definition quot64 (a b : Z) : Z := Z.quot a b.
(** [x << n] on a 64-bit signed operand with an unsigned count: counts of
    64 and more give 0. *)
Definition shl64 (x n : Z) : Z :=
  if n <? 64 then wrap64 (x * 2 ^ n) else 0.

(** ** Configuration constants

    [AllowErrorMin], [AllowErrorMax], [DefaultWorkers], [BruteForceWorkers],
    [AddUsersOnShare] and [AddUsersOnNatural] are untyped constants of the
    package, declared outside [manager.go]; they are taken as parameters. *)

Record Consts := mkConsts {
  AllowErrorMin : Z;
  AllowErrorMax : Z;
  DefaultWorkers : Z;
  BruteForceWorkers : Z;
  AddUsersOnShare : Z;
  AddUsersOnNatural : Z
}.

(** ** Errors and results *)

(** [ErrOverLimit] is the value built at line 142 (error count over the
    limit), [ErrNoActive] the one built at line 299 (no active user left);
    [ErrOther] is any error produced by a collaborator. *)
Inductive error : Type :=
| ErrOverLimit
| ErrNoActive
| ErrOther (msg : string).

Inductive result (A : Type) : Type :=
| Ok (a : A)
| Err (e : error).
Arguments Ok {A} a.
Arguments Err {A} e.

(** ** Collaborators as the manager sees them *)

Record Client := mkClient {
  c_bankid : string;
  c_name : string;
  c_password : string
}.

Record Trade := mkTrade {
  Amount : Z;
  Price : Z
}.

Inductive InvestorKind : Type := RandomInvestor | BruteForceInvestor.

(** An opaque [taskworker.Task] handed back by [investor.Next()]. *)
Definition WorkTask := nat.

(** Modelled from the spec: the [Investor] interface is declared outside
    [manager.go]; section 3 of the specification lists its capabilities.
    An investor is the record of the arguments it was constructed with and
    of the answers its methods give at the current tick: [Credit],
    [IsStarted], [IsStartCompleted], [IsRetired], [IsSignin], [Next]
    (here [NextTask]), [SharedTrades] and [LatestTradePrice]. *)
Record Investor := mkInvestor {
  kind : InvestorKind;
  client : Client;
  Credit : Z;
  Isu : Z;
  UnitAmount : Z;
  UnitPrice : Z;
  IsStarted : bool;
  IsStartCompleted : bool;
  IsRetired : bool;
  IsSignin : bool;
  NextTask : option WorkTask;
  SharedTrades : list Trade;
  LatestTradePrice : Z
}.

Definition BankID (i : Investor) : string := c_bankid (client i).

(** Modelled from the spec: [NewRandomInvestor] and
    [NewBruteForceInvestor] are declared outside [manager.go].  The call
    sites pass [(client, credit, isu, unitamount, unitprice)]: the second
    argument is what [investor.Credit()] returns (lines 273 and 316 grant
    it at the bank), the third the inventory.  A freshly constructed
    investor is created-not-started (section 3), has emitted nothing and
    has no pending work. *)
Definition NewRandomInvestor (cl : Client) (credit isu unitamount unitprice : Z)
  : Investor :=
  mkInvestor RandomInvestor cl credit isu unitamount unitprice
             false false false false None [] 0.

Definition NewBruteForceInvestor (cl : Client) : Investor :=
  mkInvestor BruteForceInvestor cl 0 0 0 0 false false false false None [] 0.

(** Units of work returned to the task engine: [investor.Start()], a
    non-nil [investor.Next()], and the deferred admission closure built by
    [taskworker.NewExecTask(..., 0)] in [addInvestors]. *)
Inductive Task : Type :=
| TaskStart (i : Investor)
| TaskWork (w : WorkTask)
| TaskAdmit (i : Investor).

Inductive LogEntry : Type :=
| LogShared (addByShare : Z)
| LogNatural.

(** ** The manager *)

Record Manager := mkManager {
  investors : list Investor;
  score : Z;
  errors : list error;
  level : Z;
  totalivst : Z;
  overError : bool;
  (* traces of calls on collaborators *)
  closed : list Investor;
  credited : list (string * Z);
  logs : list LogEntry;
  nclients : nat
}.

Definition set_investors (m : Manager) (v : list Investor) : Manager :=
  mkManager v (score m) (errors m) (level m) (totalivst m) (overError m)
            (closed m) (credited m) (logs m) (nclients m).
Definition set_score (m : Manager) (v : Z) : Manager :=
  mkManager (investors m) v (errors m) (level m) (totalivst m) (overError m)
            (closed m) (credited m) (logs m) (nclients m).
Definition set_errors (m : Manager) (v : list error) : Manager :=
  mkManager (investors m) (score m) v (level m) (totalivst m) (overError m)
            (closed m) (credited m) (logs m) (nclients m).
Definition set_level (m : Manager) (v : Z) : Manager :=
  mkManager (investors m) (score m) (errors m) v (totalivst m) (overError m)
            (closed m) (credited m) (logs m) (nclients m).
Definition set_totalivst (m : Manager) (v : Z) : Manager :=
  mkManager (investors m) (score m) (errors m) (level m) v (overError m)
            (closed m) (credited m) (logs m) (nclients m).
Definition set_overError (m : Manager) (v : bool) : Manager :=
  mkManager (investors m) (score m) (errors m) (level m) (totalivst m) v
            (closed m) (credited m) (logs m) (nclients m).
Definition set_closed (m : Manager) (v : list Investor) : Manager :=
  mkManager (investors m) (score m) (errors m) (level m) (totalivst m)
            (overError m) v (credited m) (logs m) (nclients m).
Definition set_credited (m : Manager) (v : list (string * Z)) : Manager :=
  mkManager (investors m) (score m) (errors m) (level m) (totalivst m)
            (overError m) (closed m) v (logs m) (nclients m).
Definition set_logs (m : Manager) (v : list LogEntry) : Manager :=
  mkManager (investors m) (score m) (errors m) (level m) (totalivst m)
            (overError m) (closed m) (credited m) v (nclients m).
Definition set_nclients (m : Manager) (v : nat) : Manager :=
  mkManager (investors m) (score m) (errors m) (level m) (totalivst m)
            (overError m) (closed m) (credited m) (logs m) v.

(** [NewManager]: the state right after construction. *)
Definition NewManager : Manager :=
  mkManager [] 0 [] 0 0 false [] [] [] O.

(** *** Registry *)

Definition AddInvestor (i : Investor) (m : Manager) : Manager :=
  set_totalivst (set_investors m (investors m ++ [i]))
                (wrap64 (totalivst m + 1)).

(** One pass of the loop of [PurgeInvestor] (lines 106-112): a retired
    investor is closed, any other is appended to [cleared]. *)
Definition purgeStep (acc : list Investor * list Investor) (i : Investor)
  : list Investor * list Investor :=
  if IsRetired i then (fst acc, snd acc ++ [i])
  else (fst acc ++ [i], snd acc).

Definition PurgeInvestor (m : Manager) : Manager :=
  let acc := fold_left purgeStep (investors m) ([], closed m) in
  set_closed (set_investors m (fst acc)) (snd acc).

Definition ActiveInvestors (m : Manager) : Z := Z.of_nat (length (investors m)).
Definition AllInvestors (m : Manager) : Z := totalivst m.
Definition GetLevel (m : Manager) : Z := level m.

(** *** Score ledger and error budget *)

Definition AddScore (delta : Z) (m : Manager) : Manager :=
  set_score m (add64 (score m) delta).

Definition GetScore (m : Manager) : Z := score m.

Definition ErrorCount (m : Manager) : Z := Z.of_nat (length (errors m)).

Section WithConsts.

Variable K : Consts.

Definition AppendError (e : option error) (m : Manager)
  : option error * Manager :=
  match e with
  | None => (None, m)
  | Some e =>
      let m1 := set_errors m (errors m ++ [e]) in
      let ec := Z.of_nat (length (errors m1)) in
      let errorLimit := quot64 (GetScore m1) 20 in
      let errorLimit :=
        if errorLimit <? AllowErrorMin K then AllowErrorMin K
        else if errorLimit >? AllowErrorMax K then AllowErrorMax K
        else errorLimit in
      if errorLimit <=? ec then (Some ErrOverLimit, set_overError m1 true)
      else (None, m1)
  end.

Definition TotalScore (m : Manager) : Z :=
  if overError m then 0
  else
    let score := GetScore m in
    let demerit := quot64 score (AllowErrorMax K * 2) in
    sub64 score (mul64 demerit (ErrorCount m)).

End WithConsts.

(** ** The environment of a tick

    [newClient] (line 205) receives an identity from [idlist], draws a name
    and a password from [rand] and calls [NewClient]; all three are outside
    this file.  [fetched k] is the k-th identity received from [idlist]
    (the prefetch loop keeps the channel supplied, see [IdentityQueue]
    below), [randName k] and [randPassword k] the values drawn with it, and
    [NewClient bankid name password] the outcome of the constructor for the
    manager's endpoint and timeouts: a client, or the message of the error
    it returned (a value of its own, never one of the manager's two). *)

Record Env := mkEnv {
  NewClient : string -> string -> string -> Client + string;
  fetched : nat -> string;
  randName : nat -> string;
  randPassword : nat -> string
}.

Definition accounts : list string :=
  ["5gf4syuu"; "qgar5ge8dv4g"; "gv3bsxzejbb4"; "jybp5gysw279"]%string.

Definition bruteName : string := "わからない"%string.
Definition brutePassword : string := "12345"%string.

Section Tick.

Variable K : Consts.
Variable E : Env.

Definition liftExt {A : Type} (r : A + string) : result A :=
  match r with
  | inl a => Ok a
  | inr msg => Err (ErrOther msg)
  end.

(** The outcome of the k-th call of [newClient]. *)
Definition clientAt (k : nat) : result Client :=
  liftExt (NewClient E (fetched E k) (randName E k) (randPassword E k)).

Definition newClient (m : Manager) : result Client * Manager :=
  (clientAt (nclients m), set_nclients m (S (nclients m))).

Definition AddCredit (bankid : string) (amount : Z) (m : Manager) : Manager :=
  set_credited m (credited m ++ [(bankid, amount)]).

Definition Printf (l : LogEntry) (m : Manager) : Manager :=
  set_logs m (logs m ++ [l]).

(** The closure passed to [NewExecTask] at lines 315-321, run by the task
    engine some time after the tick that returned it. *)
Definition runAdmit (investor : Investor) (m : Manager) : Manager :=
  let m1 := if Credit investor >? 0
            then AddCredit (BankID investor) (Credit investor) m else m in
  AddInvestor investor m1.

(** Lines 309-314: the investor built at index [i] of a batch. *)
Definition newBatchInvestor (cl : Client) (i unitamount price : Z)
  : Investor :=
  if Z.rem i 2 =? 1
  then NewRandomInvestor cl (mul64 price 1000) 0 unitamount (sub64 price 2)
  else NewRandomInvestor cl 0 (mul64 unitamount 100) unitamount
                         (add64 price 5).

(** [addInvestors] (lines 303-324); [n] counts the iterations left and [i]
    is the loop index. *)
Fixpoint addInvestorsLoop (n : nat) (i unitamount price : Z)
         (tasks : list Task) (m : Manager) : result (list Task) * Manager :=
  match n with
  | O => (Ok tasks, m)
  | S n' =>
      match newClient m with
      | (Err e, m1) => (Err e, m1)
      | (Ok cl, m1) =>
          let investor := newBatchInvestor cl i unitamount price in
          addInvestorsLoop n' (i + 1) unitamount price
                           (tasks ++ [TaskAdmit investor]) m1
      end
  end.

Definition addInvestors (num unitamount price : Z)
           (tasks : list Task) (m : Manager) : result (list Task) * Manager :=
  addInvestorsLoop (Z.to_nat num) 0 unitamount price tasks m.

(** Lines 325-334: at most [start] start tasks per tick. *)
Fixpoint startLoop (invs : list Investor) (start : Z) (tasks : list Task)
  : list Task :=
  match invs with
  | [] => tasks
  | investor :: rest =>
      let tasks1 :=
        if negb (IsStarted investor) then tasks ++ [TaskStart investor]
        else tasks in
      let start1 := if negb (IsStarted investor) then start - 1 else start in
      if start1 <=? 0 then tasks1 else startLoop rest start1 tasks1
  end.

(** Lines 348-353: one admission batch per shared trade. *)
Fixpoint tradesLoop (trades : list Trade) (tasks : list Task)
         (addByShare : Z) (m : Manager)
  : result (list Task * Z) * Manager :=
  match trades with
  | [] => (Ok (tasks, addByShare), m)
  | trade :: rest =>
      match addInvestors (AddUsersOnShare K) (Amount trade) (Price trade)
                         tasks m with
      | (Err e, m1) => (Err e, m1)
      | (Ok tasks1, m1) => tradesLoop rest tasks1 (add64 addByShare 1) m1
      end
  end.

(** Lines 338-355.  The accumulator is
    [(tasks, latestTradePrice, addByShare)]. *)
Fixpoint shareLoop (invs : list Investor) (acc : list Task * Z * Z)
         (m : Manager) : result (list Task * Z * Z) * Manager :=
  match invs with
  | [] => (Ok acc, m)
  | investor :: rest =>
      let '(tasks, latestTradePrice, addByShare) := acc in
      if negb (IsStartCompleted investor) then shareLoop rest acc m
      else if IsRetired investor then shareLoop rest acc m
      else
        let tasks1 := match NextTask investor with
                      | Some task => tasks ++ [TaskWork task]
                      | None => tasks
                      end in
        match tradesLoop (SharedTrades investor) tasks1 addByShare m with
        | (Err e, m1) => (Err e, m1)
        | (Ok (tasks2, addByShare2), m1) =>
            shareLoop rest (tasks2, LatestTradePrice investor, addByShare2) m1
        end
  end.

(** Lines 360-378.  [fuel] bounds the number of times the loop condition
    is evaluated; [None] means the loop is still running. *)
Fixpoint naturalGrowth (fuel : nat) (score latestTradePrice : Z)
         (tasks : list Task) (m : Manager)
  : option (result (list Task) * Manager) :=
  match fuel with
  | O => None
  | S fuel' =>
      let nextScore := mul64 (shl64 1 (level m)) 100 in
      if score <? nextScore then Some (Ok tasks, m)
      else if AllowErrorMin K <? ErrorCount m then Some (Ok tasks, m)
      else
        let m1 := Printf LogNatural (set_level m (wrapU64 (level m + 1))) in
        match addInvestors (AddUsersOnNatural K)
                           (wrap64 (wrapU64 (level m1 + 1)))
                           latestTradePrice tasks m1 with
        | (Err e, m2) => Some (Err e, m2)
        | (Ok tasks1, m2) =>
            naturalGrowth fuel' score latestTradePrice tasks1 m2
        end
  end.

Definition Next (fuel : nat) (m0 : Manager)
  : option (result (list Task) * Manager) :=
  let m := PurgeInvestor m0 in
  if ActiveInvestors m =? 0 then Some (Err ErrNoActive, m)
  else
    let tasks := startLoop (investors m) 2 [] in
    match shareLoop (investors m) (tasks, 5000, 0) m with
    | (Err e, m1) => Some (Err e, m1)
    | (Ok (tasks1, latestTradePrice, addByShare), m1) =>
        let m2 := if addByShare >? 0 then Printf (LogShared addByShare) m1
                  else m1 in
        naturalGrowth fuel (GetScore m2) latestTradePrice tasks1 m2
    end.

(** [Start] (lines 255-290). *)
Definition basePrice : Z := 5105.

(** Lines 267-272: the investor built at index [i] of the default
    population. *)
Definition newDefaultInvestor (cl : Client) (i : Z) : Investor :=
  if Z.rem i 2 =? 1
  then NewRandomInvestor cl 100000 0 1 (wrap64 (basePrice + Z.quot i 2))
  else NewRandomInvestor cl 0 5 1 (wrap64 (basePrice + Z.quot i 2)).

Fixpoint startDefaultLoop (n : nat) (i : Z) (tasks : list Task) (m : Manager)
  : result (list Task) * Manager :=
  match n with
  | O => (Ok tasks, m)
  | S n' =>
      match newClient m with
      | (Err e, m1) => (Err e, m1)
      | (Ok cl, m1) =>
          let investor := newDefaultInvestor cl i in
          let m2 := if Credit investor >? 0
                    then AddCredit (BankID investor) (Credit investor) m1
                    else m1 in
          startDefaultLoop n' (i + 1) (tasks ++ [TaskStart investor])
                           (AddInvestor investor m2)
      end
  end.

(** The second loop indexes [accounts]; an index past its end is a run-time
    panic, rendered as [None]. *)
Fixpoint startBruteLoop (n : nat) (i : nat) (tasks : list Task) (m : Manager)
  : option (result (list Task) * Manager) :=
  match n with
  | O => Some (Ok tasks, m)
  | S n' =>
      match nth_error accounts i with
      | None => None
      | Some account =>
          match liftExt (NewClient E account bruteName brutePassword) with
          | Err e => Some (Err e, m)
          | Ok cl =>
              let investor := NewBruteForceInvestor cl in
              startBruteLoop n' (S i) (tasks ++ [TaskStart investor])
                             (AddInvestor investor m)
          end
      end
  end.

Definition Start (m : Manager) : option (result (list Task) * Manager) :=
  match startDefaultLoop (Z.to_nat (DefaultWorkers K)) 0 [] m with
  | (Err e, m1) => Some (Err e, m1)
  | (Ok tasks, m1) =>
      startBruteLoop (Z.to_nat (BruteForceWorkers K)) 0 tasks m1
  end.

(** ** Runs of the manager

    One step is one call of a method that writes the manager, the run of
    one deferred admission, or a change in what the registered investors
    report. *)
Inductive step : Manager -> Manager -> Prop :=
| step_AddScore : forall delta m,
    in_int64 delta -> step m (AddScore delta m)
| step_AppendError : forall e m,
    step m (snd (AppendError K e m))
| step_AddInvestor : forall i m,
    step m (AddInvestor i m)
| step_PurgeInvestor : forall m,
    step m (PurgeInvestor m)
| step_runAdmit : forall i m,
    step m (runAdmit i m)
| step_Next : forall fuel m r m',
    Next fuel m = Some (r, m') -> step m m'
| step_Start : forall m r m',
    Start m = Some (r, m') -> step m m'
| step_investors : forall m invs,
    length invs = length (investors m) -> step m (set_investors m invs).

Inductive steps : Manager -> Manager -> Prop :=
| steps_refl : forall m, steps m m
| steps_cons : forall m1 m2 m3, step m1 m2 -> steps m2 m3 -> steps m1 m3.

Definition reachable (m : Manager) : Prop := steps NewManager m.

End Tick.

(** ** The identity prefetch queue

    [RunIDFetcher] (lines 76-89) and [FetchNewID] (lines 91-93) around the
    channel [idlist], created with capacity 10 (line 62).  The producer and
    the consumers are separate goroutines; a run is a schedule of the
    events below, and an event that is not enabled (a send on a full
    channel, a receive on an empty one) has no successor state. *)
Module IdentityQueue.

Definition capacity : nat := 10.

Record State := mkState {
  idlist : list string;      (* buffered identities, oldest first *)
  pending : option string;   (* [id] between line 82 and line 86 *)
  printed : list error;      (* errors passed to [log.Printf] *)
  ctxDone : bool;            (* [ctx.Done()] is closed *)
  returned : bool            (* the loop has returned *)
}.

Definition init : State := mkState [] None [] false false.

Inductive event : Type :=
| Mint (id : string) (bank : option error)
    (* lines 78-85: the [default] branch is taken, [rand.ID()] gives [id]
       and [NewBankID(id)] returns [bank] *)
| Send
    (* line 86: [c.idlist <- id] *)
| Return
    (* lines 79-80: [ctx.Done()] is ready and the loop returns *)
| Cancel
    (* the caller cancels [ctx] *)
| Fetch.
    (* a call of [FetchNewID] *)

(** Lines 82-85. *)
Definition mint (id : string) (bank : option error) (s : State)
  : option State :=
  if returned s then None
  else if ctxDone s then None
  else match pending s with
       | Some _ => None
       | None =>
           let printed1 := match bank with
                           | Some err => printed s ++ [err]
                           | None => printed s
                           end in
           Some (mkState (idlist s) (Some id) printed1 (ctxDone s)
                         (returned s))
       end.

(** Line 86. *)
Definition send (s : State) : option State :=
  match pending s with
  | None => None
  | Some id =>
      if (length (idlist s) <? capacity)%nat
      then Some (mkState (idlist s ++ [id]) None (printed s) (ctxDone s)
                         (returned s))
      else None
  end.

(** Lines 79-80. *)
Definition ret (s : State) : option State :=
  if returned s then None
  else match pending s with
       | Some _ => None
       | None =>
           if ctxDone s
           then Some (mkState (idlist s) None (printed s) true true)
           else None
       end.

Definition cancel (s : State) : State :=
  mkState (idlist s) (pending s) (printed s) true (returned s).

Definition FetchNewID (s : State) : option (string * State) :=
  match idlist s with
  | [] => None
  | id :: rest =>
      Some (id, mkState rest (pending s) (printed s) (ctxDone s) (returned s))
  end.

(** [run evs s out]: the state after the schedule [evs] and the identities
    handed out by [FetchNewID], appended to [out] in call order. *)
Fixpoint run (evs : list event) (s : State) (out : list string)
  : option (State * list string) :=
  match evs with
  | [] => Some (s, out)
  | Mint id bank :: evs' =>
      match mint id bank s with
      | Some s1 => run evs' s1 out
      | None => None
      end
  | Send :: evs' =>
      match send s with
      | Some s1 => run evs' s1 out
      | None => None
      end
  | Return :: evs' =>
      match ret s with
      | Some s1 => run evs' s1 out
      | None => None
      end
  | Cancel :: evs' => run evs' (cancel s) out
  | Fetch :: evs' =>
      match FetchNewID s with
      | Some (id, s1) => run evs' s1 (out ++ [id])
      | None => None
      end
  end.

(** The identities minted by a schedule, in order. *)
Fixpoint minted (evs : list event) : list string :=
  match evs with
  | [] => []
  | Mint id _ :: evs' => id :: minted evs'
  | _ :: evs' => minted evs'
  end.


Definition held (s : State) : list string :=
  idlist s ++ match pending s with Some id => [id] | None => [] end.

End IdentityQueue.

(** ** Vocabulary of the statements *)

(** The usual clamp of [x] into [[lo, hi]]. *)
Definition clamp (x lo hi : Z) : Z := Z.max lo (Z.min x hi).

(** A sequence of calls on the ledger and the budget. *)
Inductive call : Type :=
| CallAppendError (e : option error)
| CallAddScore (delta : Z).

(** [runCalls K calls m]: the values returned by the [AppendError] calls,
    in order, and the final state. *)
Fixpoint runCalls (K : Consts) (calls : list call) (m : Manager)
  : list (option error) * Manager :=
  match calls with
  | [] => ([], m)
  | CallAppendError e :: rest =>
      let r := AppendError K e m in
      let rs := runCalls K rest (snd r) in
      (fst r :: fst rs, snd rs)
  | CallAddScore delta :: rest => runCalls K rest (AddScore delta m)
  end.

Fixpoint nonNil (calls : list call) : Z :=
  match calls with
  | [] => 0
  | CallAppendError (Some _) :: rest => 1 + nonNil rest
  | _ :: rest => nonNil rest
  end.

(** The part of the state the score and the budget depend on. *)
Definition ledger (m : Manager) : Z * list error * bool :=
  (score m, errors m, overError m).

(** The constants of P10 (section 8 of the specification), with batch
    sizes for the examples. *)
Definition exampleConsts : Consts := mkConsts 5 100 2 1 2 3.

Definition exampleEnv : Env :=
  mkEnv (fun bankid name password => inl (mkClient bankid name password))
        (fun k => String (Ascii.ascii_of_nat (48 + k)) EmptyString)
        (fun _ => "name"%string)
        (fun _ => "password"%string).

Definition someError : error := ErrOther "timeout"%string.

(** The score deltas of a sequence of calls are [int64] values. *)
Fixpoint callsInRange (calls : list call) : Prop :=
  match calls with
  | [] => True
  | CallAddScore delta :: rest => in_int64 delta /\ callsInRange rest
  | _ :: rest => callsInRange rest
  end.

(** The ceiling computed at lines 134-139 of [AppendError]. *)
Definition errorLimitOf (K : Consts) (m : Manager) : Z :=
  let errorLimit := quot64 (GetScore m) 20 in
  if errorLimit <? AllowErrorMin K then AllowErrorMin K
  else if errorLimit >? AllowErrorMax K then AllowErrorMax K
  else errorLimit.

(** The invariant behind the scoring formula: the score is an [int64],
    and a run that is not voided has fewer errors than [AllowErrorMax]. *)
Definition budgetInv (K : Consts) (m : Manager) : Prop :=
  in_int64 (score m)
  /\ (overError m = false -> ErrorCount m < AllowErrorMax K).

(** The run of P10: four nil records, one failure, then 8000 points. *)
Definition p10Calls : list call :=
  [CallAppendError None; CallAppendError None; CallAppendError None;
   CallAppendError None; CallAppendError (Some someError);
   CallAddScore 8000].

(** A run that spends the whole floor of five errors. *)
Definition fiveErrors : list call :=
  [CallAppendError (Some someError); CallAppendError (Some someError);
   CallAppendError (Some someError); CallAppendError (Some someError)].


(** [subsequence l1 l2]: [l1] is [l2] with some elements dropped, the
    others kept in their order. *)
Inductive subsequence {A : Type} : list A -> list A -> Prop :=
| subsequence_nil : subsequence [] []
| subsequence_keep : forall x l1 l2,
    subsequence l1 l2 -> subsequence (x :: l1) (x :: l2)
| subsequence_drop : forall x l1 l2,
    subsequence l1 l2 -> subsequence l1 (x :: l2).

Definition notRetired (i : Investor) : bool := negb (IsRetired i).

(** ** Closed forms used in the statements about [Next] and [Start] *)

(** The client constructor does not fail: the k-th call of [newClient]
    returns [cl k]. *)
Definition clientsAre (E : Env) (cl : nat -> Client) : Prop :=
  forall k, clientAt E k = Ok (cl k).

(** The admission tasks of one batch of [n] investors whose first client
    is the [k]-th and whose first index is [j]. *)
Fixpoint admissionBatchFrom (cl : nat -> Client) (k j n : nat)
         (unitamount price : Z) : list Task :=
  match n with
  | O => []
  | S n' =>
      TaskAdmit (newBatchInvestor (cl k) (Z.of_nat j) unitamount price)
      :: admissionBatchFrom cl (S k) (S j) n' unitamount price
  end.

Definition admissionBatch (cl : nat -> Client) (k n : nat)
           (unitamount price : Z) : list Task :=
  admissionBatchFrom cl k 0 n unitamount price.

(** The investors the second loop of [Next] works on. *)
Definition eligible (i : Investor) : bool :=
  IsStartCompleted i && negb (IsRetired i).

Definition unstarted (i : Investor) : bool := negb (IsStarted i).

(** One batch per shared trade, in order. *)
Fixpoint tradeBatches (cl : nat -> Client) (k n : nat) (trades : list Trade)
  : list Task :=
  match trades with
  | [] => []
  | t :: rest =>
      admissionBatch cl k n (Amount t) (Price t)
      ++ tradeBatches cl (k + n) n rest
  end.

Definition workOf (i : Investor) : list Task :=
  match NextTask i with
  | Some task => [TaskWork task]
  | None => []
  end.

(** For each eligible investor: its own work, then its batches. *)
Fixpoint shareTasks (cl : nat -> Client) (k n : nat) (invs : list Investor)
  : list Task :=
  match invs with
  | [] => []
  | i :: rest =>
      if eligible i
      then workOf i ++ tradeBatches cl k n (SharedTrades i)
           ++ shareTasks cl (k + n * length (SharedTrades i)) n rest
      else shareTasks cl k n rest
  end.

(** The number of trades shared by eligible investors. *)
Fixpoint sharedCount (invs : list Investor) : nat :=
  match invs with
  | [] => O
  | i :: rest =>
      if eligible i then (length (SharedTrades i) + sharedCount rest)%nat
      else sharedCount rest
  end.

(** The price reported by the last eligible investor, or [d]. *)
Fixpoint lastPrice (invs : list Investor) (d : Z) : Z :=
  match invs with
  | [] => d
  | i :: rest => lastPrice rest (if eligible i then LatestTradePrice i else d)
  end.

(** [n] increments of an [int] counter. *)
Fixpoint bump (n : nat) (c : Z) : Z :=
  match n with
  | O => c
  | S n' => bump n' (add64 c 1)
  end.

Fixpoint countAdmit (tasks : list Task) : nat :=
  match tasks with
  | [] => O
  | TaskAdmit _ :: rest => S (countAdmit rest)
  | _ :: rest => countAdmit rest
  end.

(** The default investors built by [Start]. *)
Fixpoint defaultPopulationFrom (cl : nat -> Client) (k j n : nat)
  : list Investor :=
  match n with
  | O => []
  | S n' =>
      newDefaultInvestor (cl k) (Z.of_nat j)
      :: defaultPopulationFrom cl (S k) (S j) n'
  end.

(** The batches of [n] level-ups in a row, the first one leaving level
    [lvl]. *)
Fixpoint naturalTasks (cl : nat -> Client) (k size : nat) (lvl : Z) (n : nat)
         (price : Z) : list Task :=
  match n with
  | O => []
  | S n' =>
      admissionBatch cl k size (lvl + 2) price
      ++ naturalTasks cl (k + size) size (lvl + 1) n' price
  end.

(** The reading of the admission policy in section 4.5 of the
    specification: a buyer holds credit and no inventory, a seller holds
    inventory and no credit. *)
Definition buyerSeed (i : Investor) : Prop := 0 < Credit i /\ Isu i = 0.
Definition sellerSeed (i : Investor) : Prop := 0 < Isu i /\ Credit i = 0.

(** "Even index: buyer, odd index: seller", for the investors of a batch
    listed in construction order. *)
Definition evenBuyerOddSeller (batch : list Investor) : Prop :=
  forall j inv,
    nth_error batch j = Some inv ->
    (Nat.even j = true -> buyerSeed inv)
    /\ (Nat.odd j = true -> sellerSeed inv).

Definition admitted (t : Task) : list Investor :=
  match t with
  | TaskAdmit i => [i]
  | _ => []
  end.

(** The state after [n] level-ups in a row with batches of [size]. *)
Definition leveledUp (m : Manager) (n size : nat) : Manager :=
  set_nclients
    (set_logs (set_level m (level m + Z.of_nat n))
              (logs m ++ repeat LogNatural n))
    (nclients m + size * n).


(** The clients built in the examples. *)
Definition exampleClients (k : nat) : Client :=
  mkClient (fetched exampleEnv k) "name"%string "password"%string.

(** A started, signed-in investor with no pending work. *)
Definition idleInvestor : Investor :=
  mkInvestor RandomInvestor
             (mkClient "bank0"%string "name"%string "password"%string)
             0 5 1 5105 true true false true None [] 5000.

(** The same investor after it has shared one trade of amount 10 at price
    5000 (P6). *)
Definition sharingInvestor : Investor :=
  mkInvestor RandomInvestor
             (mkClient "bank0"%string "name"%string "password"%string)
             0 5 1 5105 true true false true None [mkTrade 10 5000] 5000.

(** P5: a score of 100 at level 0. *)
Definition p5State : Manager := AddInvestor idleInvestor (AddScore 100 NewManager).

(** A score of 400 at level 0: three thresholds are reached. *)
Definition threeLevelsState : Manager :=
  AddInvestor idleInvestor (AddScore 400 NewManager).

(** P6: one investor that shared one trade. *)
Definition p6State : Manager := AddInvestor sharingInvestor NewManager.

(** The largest score an [int64] holds. *)
Definition overflowState : Manager :=
  AddInvestor idleInvestor (AddScore max_int64 NewManager).

(** A tick is in the range where the thresholds do not overflow, or the
    error gate is closed. *)
Definition growthBounded (K : Consts) (m : Manager) : Prop :=
  AllowErrorMin K < ErrorCount m
  \/ (0 <= level m <= 56 /\ score m < 100 * 2 ^ 56).

(** The start tasks of a tick: the first two investors not yet started. *)
Definition startTasks (invs : list Investor) : list Task :=
  map TaskStart (firstn 2 (filter unstarted invs)).

(** The fields of the investor at index [j] of a batch for
    [(unitamount, price)]: credit and no inventory at odd indexes,
    inventory and no credit at even indexes. *)
Definition oddCreditEvenInventory (inv : Investor) (j : nat)
           (unitamount price : Z) : Prop :=
  kind inv = RandomInvestor
  /\ UnitAmount inv = unitamount
  /\ (Nat.odd j = true ->
      Credit inv = mul64 price 1000 /\ Isu inv = 0
      /\ UnitPrice inv = sub64 price 2)
  /\ (Nat.even j = true ->
      Credit inv = 0 /\ Isu inv = mul64 unitamount 100
      /\ UnitPrice inv = add64 price 5).

(** The same for the default population of [Start]. *)
Definition oddCreditEvenInventoryDefault (inv : Investor) (j : nat) : Prop :=
  kind inv = RandomInvestor
  /\ UnitAmount inv = 1
  /\ UnitPrice inv = wrap64 (basePrice + Z.of_nat (j / 2))
  /\ (Nat.odd j = true -> Credit inv = 100000 /\ Isu inv = 0)
  /\ (Nat.even j = true -> Credit inv = 0 /\ Isu inv = 5).


(** More errors than [AllowErrorMin] of the examples, and a score of 100
    at level 0, below the voiding ceiling of a score of 2000. *)
Definition gatedState : Manager :=
  set_errors (AddInvestor idleInvestor (AddScore 100 NewManager))
             (repeat someError 6).


(** One pass of the loop whose registration fails, then one fetch. *)
Definition rejectedThenFetched : list IdentityQueue.event :=
  [IdentityQueue.Mint "rejected-id"%string (Some someError);
   IdentityQueue.Send; IdentityQueue.Fetch].


(** ** Further methods of the manager *)

(** [Close] (lines 69-73): every registered investor is closed, in
    order; the registry itself is left as it is. *)
Definition Close (m : Manager) : Manager :=
  fold_left (fun m' i => set_closed m' (closed m' ++ [i])) (investors m) m.

(** [FindInvestor] (lines 196-203): [None] is the nil interface value. *)
Fixpoint findInvestorLoop (invs : list Investor) (bankID : string)
  : option Investor :=
  match invs with
  | [] => None
  | i :: rest =>
      if String.eqb (BankID i) bankID then Some i
      else findInvestorLoop rest bankID
  end.

Definition FindInvestor (bankID : string) (m : Manager) : option Investor :=
  findInvestorLoop (investors m) bankID.

(** [e.Error()]: the messages given at lines 142 and 299, and the message
    a collaborator's error carries. *)
Definition Error (e : error) : string :=
  match e with
  | ErrOverLimit => "エラー件数が規定を超過しました."%string
  | ErrNoActive => "アクティブユーザーがいなくなりました"%string
  | ErrOther msg => msg
  end.

(** [GetErrorsString] (lines 153-159). *)
Definition GetErrorsString (m : Manager) : list string :=
  fold_left (fun r e => r ++ [Error e]) (errors m) [].

(** The loop of [PostTest] (lines 240-245): the users handed to the
    post-run validator. *)
Definition testInvestors (m : Manager) : list Investor :=
  fold_left (fun acc inv =>
               if IsSignin inv && negb (IsRetired inv) then acc ++ [inv]
               else acc)
            (investors m) [].

(** The task engine runs the deferred admissions of a list of investors
    one after the other. *)
Definition runAdmits (invs : list Investor) (m : Manager) : Manager :=
  fold_left (fun m' i => runAdmit i m') invs m.

(** ** Vocabulary of the further statements *)

(** Calls on the registry. *)
Inductive regcall : Type :=
| CallAddInvestor (i : Investor)
| CallRunAdmit (i : Investor)
| CallPurgeInvestor
| CallClose.

Fixpoint runRegistry (calls : list regcall) (m : Manager) : Manager :=
  match calls with
  | [] => m
  | CallAddInvestor i :: rest => runRegistry rest (AddInvestor i m)
  | CallRunAdmit i :: rest => runRegistry rest (runAdmit i m)
  | CallPurgeInvestor :: rest => runRegistry rest (PurgeInvestor m)
  | CallClose :: rest => runRegistry rest (Close m)
  end.

(** The number of admissions among the calls. *)
Fixpoint admissions (calls : list regcall) : nat :=
  match calls with
  | [] => O
  | CallAddInvestor _ :: rest => S (admissions rest)
  | CallRunAdmit _ :: rest => S (admissions rest)
  | _ :: rest => admissions rest
  end.

(** The non-nil errors passed to [AppendError], in call order. *)
Fixpoint recorded (calls : list call) : list error :=
  match calls with
  | [] => []
  | CallAppendError (Some e) :: rest => e :: recorded rest
  | _ :: rest => recorded rest
  end.

(** The sum of the score deltas of a sequence of calls. *)
Fixpoint sumDeltas (calls : list call) : Z :=
  match calls with
  | [] => 0
  | CallAddScore delta :: rest => delta + sumDeltas rest
  | _ :: rest => sumDeltas rest
  end.

(** What no loop of [Next] writes: everything but the level, the log and
    the count of clients built. *)
Definition core (m : Manager)
  : list Investor * Z * list error * Z * bool * list Investor
    * list (string * Z) :=
  (investors m, score m, errors m, totalivst m, overError m, closed m,
   credited m).

(** The grants sent to the bank for a list of investors: one for each
    investor with a positive credit. *)
Definition creditGrants (invs : list Investor) : list (string * Z) :=
  map (fun i => (BankID i, Credit i)) (filter (fun i => Credit i >? 0) invs).

(** An environment whose client constructor always fails. *)
Definition failingEnv : Env :=
  mkEnv (fun _ _ _ => inr "base url parse Failed."%string)
        (fetched exampleEnv) (randName exampleEnv) (randPassword exampleEnv).

Definition isStart (t : Task) : bool :=
  match t with
  | TaskStart _ => true
  | _ => false
  end.

(** The last element of a list, if any. *)
Definition lastOf {A : Type} (l : list A) : option A :=
  match rev l with
  | [] => None
  | x :: _ => Some x
  end.

(** Three investors admitted and not yet started. *)
Definition threeNewState : Manager :=
  AddInvestor (NewRandomInvestor (exampleClients 2) 0 5 1 5106)
    (AddInvestor (NewRandomInvestor (exampleClients 1) 100000 0 1 5105)
       (AddInvestor (NewRandomInvestor (exampleClients 0) 0 5 1 5105)
          NewManager)).

(** The price natural growth uses: the one reported by the last eligible
    investor of the registry, 5000 when there is none. *)
Definition naturalPrice (invs : list Investor) : Z :=
  match lastOf (filter eligible invs) with
  | Some i => LatestTradePrice i
  | None => 5000
  end.

(** An eligible investor that reports a latest trade price of 5123. *)
Definition pricedInvestor : Investor :=
  mkInvestor RandomInvestor
             (mkClient "bank1"%string "name"%string "password"%string)
             100000 0 1 5105 true true false true None [] 5123.

(** An environment whose client constructor fails for the identity "1",
    the second one fetched. *)
Definition secondFailsEnv : Env :=
  mkEnv (fun bankid name password =>
           if String.eqb bankid "1"
           then inr "cookiejar.New Failed."%string
           else inl (mkClient bankid name password))
        (fetched exampleEnv) (randName exampleEnv) (randPassword exampleEnv).

(** A schedule of the prefetch loop: two identities minted and sent, the
    context cancelled, the loop returned, one identity fetched. *)
Definition cancelledSchedule : list IdentityQueue.event :=
  [IdentityQueue.Mint "a"%string None; IdentityQueue.Send;
   IdentityQueue.Mint "b"%string None; IdentityQueue.Send;
   IdentityQueue.Cancel; IdentityQueue.Return; IdentityQueue.Fetch].
(** * Properties *)

(** ** Machine arithmetic *)

Lemma wrap64_range : forall z, in_int64 (wrap64 z).
Proof.
  intros z. unfold in_int64, wrap64, min_int64, max_int64.
  pose proof (Z.mod_pos_bound (z + 2 ^ 63) (2 ^ 64) ltac:(lia)). lia.
Qed.

Lemma wrap64_id : forall z, in_int64 z -> wrap64 z = z.
Proof.
  intros z [Hlo Hhi]. unfold wrap64, min_int64, max_int64 in *.
  rewrite Z.mod_small; lia.
Qed.

Lemma shl64_one_small : forall n, 0 <= n <= 62 -> shl64 1 n = 2 ^ n.
Proof.
  intros n Hn. unfold shl64.
  destruct (Z.ltb_spec n 64); [|lia].
  rewrite Z.mul_1_l. apply wrap64_id.
  unfold in_int64, min_int64, max_int64.
  assert (0 < 2 ^ n) by (apply Z.pow_pos_nonneg; lia).
  assert (2 ^ n <= 2 ^ 62) by (apply Z.pow_le_mono_r; lia).
  lia.
Qed.

(** The level-up threshold is exact up to level 56. *)
Lemma nextScore_exact :
  forall n, 0 <= n <= 56 -> mul64 (shl64 1 n) 100 = 2 ^ n * 100.
Proof.
  intros n Hn. unfold mul64. rewrite shl64_one_small by lia.
  apply wrap64_id. unfold in_int64, min_int64, max_int64.
  assert (0 < 2 ^ n) by (apply Z.pow_pos_nonneg; lia).
  assert (2 ^ n <= 2 ^ 56) by (apply Z.pow_le_mono_r; lia).
  lia.
Qed.

(** ** What each method leaves alone *)

Section Frames.

Variable K : Consts.
Variable E : Env.

Lemma newClient_ledger : forall m, ledger (snd (newClient E m)) = ledger m.
Proof. reflexivity. Qed.

Lemma addInvestorsLoop_ledger :
  forall n i ua p tasks m,
    ledger (snd (addInvestorsLoop E n i ua p tasks m)) = ledger m.
Proof.
  induction n as [|n IH]; intros i ua p tasks m; simpl; [reflexivity|].
  destruct (clientAt E (nclients m)) as [cl|e]; simpl; [|reflexivity].
  rewrite IH. reflexivity.
Qed.

Lemma addInvestors_ledger :
  forall num ua p tasks m,
    ledger (snd (addInvestors E num ua p tasks m)) = ledger m.
Proof. intros. apply addInvestorsLoop_ledger. Qed.

Lemma tradesLoop_ledger :
  forall trades tasks n m,
    ledger (snd (tradesLoop K E trades tasks n m)) = ledger m.
Proof.
  induction trades as [|t trades IH]; intros tasks n m; simpl; [reflexivity|].
  pose proof (addInvestors_ledger (AddUsersOnShare K) (Amount t) (Price t)
                                  tasks m) as H.
  destruct (addInvestors E _ _ _ tasks m) as [[tasks1|e] m1]; simpl in *.
  - rewrite IH. exact H.
  - exact H.
Qed.

Lemma shareLoop_ledger :
  forall invs acc m,
    ledger (snd (shareLoop K E invs acc m)) = ledger m.
Proof.
  induction invs as [|inv invs IH]; intros [[tasks price] n] m; simpl;
    [reflexivity|].
  destruct (IsStartCompleted inv); simpl; [|apply IH].
  destruct (IsRetired inv); [apply IH|].
  match goal with
  | |- context [tradesLoop K E ?a ?b ?c ?d] =>
      pose proof (tradesLoop_ledger a b c d) as H;
      destruct (tradesLoop K E a b c d) as [[[tasks2 n2]|e] m1]
  end; simpl in *.
  - rewrite IH. exact H.
  - exact H.
Qed.

Lemma naturalGrowth_ledger :
  forall fuel sc price tasks m r m',
    naturalGrowth K E fuel sc price tasks m = Some (r, m') ->
    ledger m' = ledger m.
Proof.
  induction fuel as [|fuel IH]; intros sc price tasks m r m' H; simpl in H;
    [discriminate|].
  destruct (sc <? _); [inversion H; reflexivity|].
  destruct (AllowErrorMin K <? ErrorCount m); [inversion H; reflexivity|].
  match type of H with
  | context [addInvestors E ?a ?b ?c ?d ?e] =>
      pose proof (addInvestors_ledger a b c d e) as HL;
      destruct (addInvestors E a b c d e) as [[tasks1|e1] m1]
  end; simpl in HL.
  - apply IH in H. rewrite H. exact HL.
  - inversion H; subst. exact HL.
Qed.

Lemma PurgeInvestor_ledger : forall m, ledger (PurgeInvestor m) = ledger m.
Proof. reflexivity. Qed.

Lemma Next_ledger :
  forall fuel m r m', Next K E fuel m = Some (r, m') -> ledger m' = ledger m.
Proof.
  intros fuel m r m' H. unfold Next in H.
  destruct (ActiveInvestors (PurgeInvestor m) =? 0);
    [inversion H; reflexivity|].
  match type of H with
  | context [shareLoop K E ?a ?b ?c] =>
      pose proof (shareLoop_ledger a b c) as HL;
      destruct (shareLoop K E a b c) as [[[[tasks1 price] n]|e] m1]
  end; simpl in HL.
  - apply naturalGrowth_ledger in H. rewrite H.
    destruct (n >? 0); exact HL.
  - inversion H; subst. exact HL.
Qed.

Lemma startDefaultLoop_ledger :
  forall n i tasks m,
    ledger (snd (startDefaultLoop E n i tasks m)) = ledger m.
Proof.
  induction n as [|n IH]; intros i tasks m; simpl; [reflexivity|].
  destruct (clientAt E (nclients m)) as [cl|e]; simpl; [|reflexivity].
  rewrite IH. destruct (Credit (newDefaultInvestor cl i) >? 0); reflexivity.
Qed.

Lemma startBruteLoop_ledger :
  forall n i tasks m r m',
    startBruteLoop E n i tasks m = Some (r, m') -> ledger m' = ledger m.
Proof.
  induction n as [|n IH]; intros i tasks m r m' H; simpl in H.
  - inversion H; reflexivity.
  - destruct (nth_error accounts i); [|discriminate].
    destruct (liftExt (NewClient E _ _ _)).
    + apply IH in H. exact H.
    + inversion H; reflexivity.
Qed.

Lemma Start_ledger :
  forall m r m', Start K E m = Some (r, m') -> ledger m' = ledger m.
Proof.
  intros m r m' H. unfold Start in H.
  pose proof (startDefaultLoop_ledger (Z.to_nat (DefaultWorkers K)) 0 [] m)
    as HL.
  destruct (startDefaultLoop E _ 0 [] m) as [[tasks|e] m1]; simpl in HL.
  - apply startBruteLoop_ledger in H. congruence.
  - inversion H; subst. exact HL.
Qed.

Lemma runAdmit_ledger : forall i m, ledger (runAdmit i m) = ledger m.
Proof. intros i m. unfold runAdmit. destruct (Credit i >? 0); reflexivity. Qed.

(** Every step either calls [AddScore], calls [AppendError], or keeps the
    ledger. *)
Lemma step_cases :
  forall m m',
    step K E m m' ->
    (exists delta, in_int64 delta /\ m' = AddScore delta m)
    \/ (exists e, m' = snd (AppendError K e m))
    \/ ledger m' = ledger m.
Proof.
  intros m m' H. destruct H.
  - left. eauto.
  - right. left. eauto.
  - right. right. reflexivity.
  - right. right. reflexivity.
  - right. right. apply runAdmit_ledger.
  - right. right. eapply Next_ledger; eauto.
  - right. right. eapply Start_ledger; eauto.
  - right. right. reflexivity.
Qed.

Lemma AppendError_overError :
  forall e m,
    overError m = true -> overError (snd (AppendError K e m)) = true.
Proof.
  intros [e|] m H; simpl; [|exact H].
  destruct (_ <=? _); simpl; [reflexivity|exact H].
Qed.

Lemma step_overError :
  forall m m', step K E m m' -> overError m = true -> overError m' = true.
Proof.
  intros m m' H Hov.
  destruct (step_cases m m' H) as [[d [_ ->]]|[[e ->]|HL]].
  - exact Hov.
  - apply AppendError_overError; exact Hov.
  - unfold ledger in HL. congruence.
Qed.

Lemma steps_overError :
  forall m m',
    steps K E m m' ->
    overError m = true -> overError m' = true.
Proof.
  intros m m' H. induction H as [|x y z Hxy Hyz IH]; intros Hov; [exact Hov|].
  apply IH. eapply step_overError; eauto.
Qed.

End Frames.

(** ** The error budget and the score *)

Section Budget.

Variable K : Consts.
Variable E : Env.

Lemma errorLimitOf_clamp :
  forall m,
    AllowErrorMin K <= AllowErrorMax K ->
    errorLimitOf K m =
    clamp (Z.quot (GetScore m) 20) (AllowErrorMin K) (AllowErrorMax K).
Proof.
  intros m Hmm. unfold errorLimitOf, clamp, quot64.
  destruct (Z.ltb_spec (Z.quot (GetScore m) 20) (AllowErrorMin K)).
  - lia.
  - destruct (Z.gtb_spec (Z.quot (GetScore m) 20) (AllowErrorMax K)); lia.
Qed.

Lemma AppendError_some :
  forall e m,
    AppendError K (Some e) m =
    let m1 := set_errors m (errors m ++ [e]) in
    if errorLimitOf K m <=? ErrorCount m1
    then (Some ErrOverLimit, set_overError m1 true)
    else (None, m1).
Proof. reflexivity. Qed.

Lemma ErrorCount_append :
  forall e m, ErrorCount (set_errors m (errors m ++ [e])) = ErrorCount m + 1.
Proof.
  intros e m. unfold ErrorCount. simpl. rewrite length_app. simpl. lia.
Qed.

Lemma AppendError_count :
  forall e m,
    ErrorCount (snd (AppendError K e m)) =
    ErrorCount m + match e with Some _ => 1 | None => 0 end.
Proof.
  intros [e|] m; [|simpl; lia].
  rewrite AppendError_some. cbv zeta.
  destruct (_ <=? _); simpl; apply ErrorCount_append.
Qed.

Lemma runCalls_count :
  forall calls m,
    ErrorCount (snd (runCalls K calls m)) = ErrorCount m + nonNil calls.
Proof.
  induction calls as [|c calls IH]; intros m; [simpl; lia|].
  destruct c as [[e|]|delta]; cbn [runCalls nonNil fst snd]; rewrite IH.
  - rewrite AppendError_count. lia.
  - rewrite AppendError_count. lia.
  - reflexivity.
Qed.

Hypothesis Max_pos : 0 < AllowErrorMax K.
Hypothesis Min_le_Max : AllowErrorMin K <= AllowErrorMax K.

Lemma errorLimitOf_le_Max : forall m, errorLimitOf K m <= AllowErrorMax K.
Proof.
  intros m. rewrite errorLimitOf_clamp by assumption. unfold clamp. lia.
Qed.

Lemma budgetInv_init : budgetInv K NewManager.
Proof.
  split.
  - unfold in_int64, min_int64, max_int64. simpl. lia.
  - intros _. exact Max_pos.
Qed.

Lemma budgetInv_step :
  forall m m', step K E m m' -> budgetInv K m -> budgetInv K m'.
Proof.
  intros m m' H [Hs Hb].
  destruct (step_cases K E m m' H) as [[d [_ ->]]|[[e ->]|HL]].
  - split; [apply wrap64_range|exact Hb].
  - destruct e as [e|]; [|split; assumption].
    rewrite AppendError_some. cbv zeta.
    destruct (Z.leb_spec (errorLimitOf K m)
                         (ErrorCount (set_errors m (errors m ++ [e]))))
      as [Hle|Hgt]; simpl.
    + split; [exact Hs|discriminate].
    + split; [exact Hs|]. intros _.
      pose proof (errorLimitOf_le_Max m).
      change (ErrorCount (set_errors m (errors m ++ [e])) < AllowErrorMax K).
      lia.
  - unfold ledger in HL. inversion HL as [[H1 H2 H3]].
    unfold budgetInv, ErrorCount in *. rewrite H1, H2, H3. split; assumption.
Qed.

Lemma budgetInv_steps :
  forall m m', steps K E m m' -> budgetInv K m -> budgetInv K m'.
Proof.
  intros m m' H. induction H as [|x y z Hxy Hyz IH]; intros Hi; [exact Hi|].
  apply IH. eapply budgetInv_step; eauto.
Qed.

Lemma budgetInv_reachable : forall m, reachable K E m -> budgetInv K m.
Proof.
  intros m H. eapply budgetInv_steps; [exact H|apply budgetInv_init].
Qed.

(** Under the invariant nothing wraps in [TotalScore]. *)
Lemma TotalScore_exact :
  forall m,
    budgetInv K m -> overError m = false ->
    TotalScore K m =
    GetScore m - Z.quot (GetScore m) (2 * AllowErrorMax K) * ErrorCount m.
Proof.
  intros m [Hs Hb] Hov. specialize (Hb Hov).
  unfold TotalScore. rewrite Hov. cbv zeta.
  unfold quot64, sub64, mul64, GetScore in *.
  replace (AllowErrorMax K * 2) with (2 * AllowErrorMax K) by lia.
  set (s := score m) in *. set (d := 2 * AllowErrorMax K).
  set (q := Z.quot s d).
  assert (Hec : 0 <= ErrorCount m) by (unfold ErrorCount; lia).
  set (ec := ErrorCount m) in *.
  assert (Hd : d <> 0) by (unfold d; lia).
  unfold in_int64, min_int64, max_int64 in Hs.
  destruct (Z.le_gt_cases 0 s) as [Hpos|Hneg].
  - pose proof (Z.mul_quot_le s d Hpos Hd) as Hq. fold q in Hq.
    assert (0 <= q) by (apply Z.quot_pos; unfold d; lia).
    assert (0 <= q * ec <= s) by (unfold d in Hq; nia).
    rewrite (wrap64_id (q * ec))
      by (unfold in_int64, min_int64, max_int64; lia).
    apply wrap64_id. unfold in_int64, min_int64, max_int64. lia.
  - pose proof (Z.mul_quot_ge s d ltac:(lia) Hd) as Hq. fold q in Hq.
    assert (q <= 0) by (unfold d in Hq; nia).
    assert (s <= q * ec <= 0) by (unfold d in Hq; nia).
    rewrite (wrap64_id (q * ec))
      by (unfold in_int64, min_int64, max_int64; lia).
    apply wrap64_id. unfold in_int64, min_int64, max_int64. lia.
Qed.

End Budget.

(** ** Runs made of ledger calls *)

Lemma runCalls_steps :
  forall K E calls m,
    callsInRange calls -> steps K E m (snd (runCalls K calls m)).
Proof.
  intros K E. induction calls as [|c calls IH]; intros m Hr.
  - apply steps_refl.
  - destruct c as [e|delta]; cbn [runCalls snd].
    + apply steps_cons with (m2 := snd (AppendError K e m)).
      * apply step_AppendError.
      * apply IH. destruct e; exact Hr.
    + destruct Hr as [Hd Hr].
      apply steps_cons with (m2 := AddScore delta m).
      * apply step_AddScore. exact Hd.
      * apply IH. exact Hr.
Qed.

Lemma in_int64_8000 : in_int64 8000.
Proof. unfold in_int64, min_int64, max_int64. lia. Qed.

Lemma p10_reachable :
  reachable exampleConsts exampleEnv
            (snd (runCalls exampleConsts p10Calls NewManager)).
Proof.
  apply runCalls_steps. simpl. split; [apply in_int64_8000|exact I].
Qed.

(** C1.  Once [AppendError] has returned the budget-exceeded failure, the
    voided flag is set, and after any further sequence of steps of the
    manager ([AddScore], [AppendError], [AddInvestor], [PurgeInvestor],
    [Start], [Next], deferred admissions, changes of the investors) the
    flag is still set and [TotalScore] returns 0. *)
Theorem budget_exceeded_voids_forever :
  forall K E e m m',
    fst (AppendError K e m) = Some ErrOverLimit ->
    steps K E (snd (AppendError K e m)) m' ->
    overError (snd (AppendError K e m)) = true
    /\ overError m' = true
    /\ TotalScore K m' = 0.
Proof.
  intros K E e m m' Hfail Hsteps.
  assert (Hov : overError (snd (AppendError K e m)) = true).
  { destruct e as [e|]; [|discriminate Hfail].
    rewrite AppendError_some in *. cbv zeta in *.
    destruct (_ <=? _); [reflexivity|discriminate Hfail]. }
  split; [exact Hov|].
  assert (Hov' : overError m' = true)
    by (eapply steps_overError; eauto).
  split; [exact Hov'|].
  unfold TotalScore. rewrite Hov'. reflexivity.
Qed.

Lemma budget_exceeded_voids_forever_witness :
  let m := snd (runCalls exampleConsts fiveErrors NewManager) in
  let mv := snd (AppendError exampleConsts (Some someError) m) in
  TotalScore exampleConsts
             (snd (AppendError exampleConsts (Some someError)
                               (AddScore 8000 mv))) = 0.
Proof.
  intros m mv.
  apply (budget_exceeded_voids_forever exampleConsts exampleEnv
                                       (Some someError) m).
  - reflexivity.
  - apply steps_cons with (m2 := AddScore 8000 mv).
    + apply step_AddScore. unfold in_int64, min_int64, max_int64. lia.
    + apply steps_cons
        with (m2 := snd (AppendError exampleConsts (Some someError)
                                    (AddScore 8000 mv))).
      * apply step_AppendError.
      * apply steps_refl.
Defined.

(** C2.  [AppendError(nil)] returns nil and changes nothing: the error
    list and the voided flag are those of before.  For a non-nil [e] the
    error is appended, the ceiling is
    [clamp(GetScore()/20, AllowErrorMin, AllowErrorMax)], and the call
    returns the budget-exceeded failure exactly when the new error count
    has reached the ceiling; in that case the voided flag is set after the
    call, otherwise the call returns nil and the flag is the one of
    before.  After any sequence of calls the error count has grown by the
    number of non-nil records. *)
Theorem AppendError_contract :
  forall K,
    AllowErrorMin K <= AllowErrorMax K ->
    forall m,
      AppendError K None m = (None, m)
      /\ (forall e,
            let m1 := set_errors m (errors m ++ [e]) in
            let ceiling := clamp (Z.quot (GetScore m) 20)
                                 (AllowErrorMin K) (AllowErrorMax K) in
            errors (snd (AppendError K (Some e) m)) = errors m ++ [e]
            /\ (fst (AppendError K (Some e) m) = Some ErrOverLimit
                <-> ceiling <= ErrorCount m1)
            /\ (fst (AppendError K (Some e) m) = None
                <-> ErrorCount m1 < ceiling)
            /\ (ceiling <= ErrorCount m1 ->
                AppendError K (Some e) m
                = (Some ErrOverLimit, set_overError m1 true))
            /\ (ErrorCount m1 < ceiling ->
                AppendError K (Some e) m = (None, m1))
            /\ (ceiling <= ErrorCount m1 ->
                overError (snd (AppendError K (Some e) m)) = true)
            /\ (ErrorCount m1 < ceiling ->
                overError (snd (AppendError K (Some e) m)) = overError m)
            /\ (fst (AppendError K (Some e) m) = Some ErrOverLimit ->
                overError (snd (AppendError K (Some e) m)) = true)
            /\ (fst (AppendError K (Some e) m) = None ->
                overError (snd (AppendError K (Some e) m)) = overError m)
            /\ ErrorCount (snd (AppendError K (Some e) m)) = ErrorCount m + 1
            /\ GetScore (snd (AppendError K (Some e) m)) = GetScore m)
      /\ (forall calls,
            ErrorCount (snd (runCalls K calls m))
            = ErrorCount m + nonNil calls)
      /\ (forall calls,
            ErrorCount (snd (runCalls K calls NewManager)) = nonNil calls)
      /\ (errors (snd (AppendError K None m)) = errors m
          /\ overError (snd (AppendError K None m)) = overError m
          /\ ErrorCount (snd (AppendError K None m)) = ErrorCount m).
Proof.
  intros K Hmm m. split; [reflexivity|]. split; [|split; [|split]].
  - intros e m1 ceiling.
    assert (Hcount : ErrorCount m1 = ErrorCount m + 1)
      by apply ErrorCount_append.
    rewrite AppendError_some. cbv zeta. fold m1.
    rewrite (errorLimitOf_clamp K m Hmm). fold ceiling.
    destruct (Z.leb_spec ceiling (ErrorCount m1)) as [Hle|Hgt];
      cbn [fst snd].
    + split; [reflexivity|].
      split; [split; [intros _; exact Hle|reflexivity]|].
      split; [split; [discriminate|intros; lia]|].
      split; [reflexivity|].
      split; [intros; lia|].
      split; [reflexivity|].
      split; [intros; lia|].
      split; [reflexivity|].
      split; [discriminate|].
      split; [exact Hcount|reflexivity].
    + split; [reflexivity|].
      split; [split; [discriminate|intros; lia]|].
      split; [split; [intros _; exact Hgt|reflexivity]|].
      split; [intros; lia|].
      split; [reflexivity|].
      split; [intros; lia|].
      split; [reflexivity|].
      split; [discriminate|].
      split; [reflexivity|].
      split; [exact Hcount|reflexivity].
  - intros calls. apply runCalls_count.
  - intros calls. rewrite runCalls_count. reflexivity.
  - repeat split.
Qed.

(** With [AllowErrorMin = 5]: the fifth error returns the failure and
    sets the flag, which was clear before; the first one returns nil and
    leaves it clear. *)
Lemma AppendError_contract_witness :
  let m4 := snd (runCalls exampleConsts fiveErrors NewManager) in
  AppendError exampleConsts None NewManager = (None, NewManager)
  /\ overError m4 = false
  /\ fst (AppendError exampleConsts (Some someError) m4) = Some ErrOverLimit
  /\ overError (snd (AppendError exampleConsts (Some someError) m4)) = true
  /\ fst (AppendError exampleConsts (Some someError) NewManager) = None
  /\ overError (snd (AppendError exampleConsts (Some someError) NewManager))
     = false
  /\ ErrorCount (snd (runCalls exampleConsts p10Calls NewManager)) = 1.
Proof.
  intros m4.
  assert (H : AllowErrorMin exampleConsts <= AllowErrorMax exampleConsts)
    by (simpl; lia).
  destruct (AppendError_contract exampleConsts H m4)
    as [_ [Hfour _]].
  destruct (Hfour someError)
    as [_ [Hfail [_ [_ [_ [Hset _]]]]]].
  destruct (AppendError_contract exampleConsts H NewManager)
    as [Hnil [Hzero [_ [Hcount _]]]].
  destruct (Hzero someError)
    as [_ [_ [Hok [_ [_ [_ [Hkeep _]]]]]]].
  split; [exact Hnil|].
  split; [reflexivity|].
  split; [apply (proj2 Hfail); vm_compute; discriminate|].
  split; [apply Hset; vm_compute; discriminate|].
  split; [apply (proj2 Hok); vm_compute; reflexivity|].
  split; [rewrite Hkeep; [reflexivity|vm_compute; reflexivity]|].
  apply (Hcount p10Calls).
Defined.

(** C3.  In every reachable state in which the run is not voided,
    [TotalScore()] is [GetScore() - (GetScore() / (2 * AllowErrorMax)) *
    ErrorCount()] with truncating division, and no intermediate value
    wraps. *)
Theorem TotalScore_formula :
  forall K E,
    0 < AllowErrorMax K ->
    AllowErrorMin K <= AllowErrorMax K ->
    forall m,
      reachable K E m ->
      overError m = false ->
      TotalScore K m =
      GetScore m - Z.quot (GetScore m) (2 * AllowErrorMax K) * ErrorCount m.
Proof.
  intros K E Hpos Hmm m Hr Hov.
  apply TotalScore_exact; try assumption.
  eapply budgetInv_reachable; eauto.
Qed.

(** P10: with [AllowErrorMin = 5] and [AllowErrorMax = 100], four nil and
    one non-nil record and a score of 8000 give an error count of 1, no
    failure returned, and a total score of 7960. *)
Lemma TotalScore_formula_witness :
  let r := runCalls exampleConsts p10Calls NewManager in
  fst r = [None; None; None; None; None]
  /\ ErrorCount (snd r) = 1
  /\ overError (snd r) = false
  /\ GetScore (snd r) = 8000
  /\ TotalScore exampleConsts (snd r) = 7960.
Proof.
  intros r.
  split; [reflexivity|]. split; [reflexivity|].
  split; [reflexivity|]. split; [reflexivity|].
  rewrite (TotalScore_formula exampleConsts exampleEnv).
  - reflexivity.
  - simpl. lia.
  - simpl. lia.
  - apply p10_reachable.
  - reflexivity.
Defined.

(** C10.  In every reachable state with a non-negative score in which the
    run is not voided, fewer than [AllowErrorMax] errors are recorded, the
    demerit is at most half the score, and [TotalScore()] is at least half
    of [GetScore()]; recording an error that brings the count to
    [AllowErrorMax] voids the run. *)
Theorem penalty_at_most_half :
  forall K E,
    0 < AllowErrorMax K ->
    AllowErrorMin K <= AllowErrorMax K ->
    forall m,
      reachable K E m ->
      0 <= GetScore m ->
      overError m = false ->
      ErrorCount m < AllowErrorMax K
      /\ Z.quot (GetScore m) (2 * AllowErrorMax K) * ErrorCount m
         <= Z.quot (GetScore m) 2
      /\ Z.quot (GetScore m) 2 <= TotalScore K m
      /\ TotalScore K m <= GetScore m
      /\ (forall e,
            AllowErrorMax K <= ErrorCount m + 1 ->
            fst (AppendError K (Some e) m) = Some ErrOverLimit).
Proof.
  intros K E Hpos Hmm m Hr Hs Hov.
  pose proof (budgetInv_reachable K E Hpos Hmm m Hr) as Hinv.
  pose proof (TotalScore_exact K Hpos m Hinv Hov) as Ht.
  destruct Hinv as [_ Hb]. specialize (Hb Hov).
  assert (Hec : 0 <= ErrorCount m) by (unfold ErrorCount; lia).
  set (d := 2 * AllowErrorMax K) in *.
  assert (Hd : d <> 0) by (unfold d; lia).
  pose proof (Z.mul_quot_le (GetScore m) d Hs Hd) as Hq.
  assert (0 <= Z.quot (GetScore m) d) by (apply Z.quot_pos; unfold d; lia).
  pose proof (Z.mul_quot_le (GetScore m) 2 Hs ltac:(lia)) as Hh.
  assert (Hlt : GetScore m < 2 * Z.quot (GetScore m) 2 + 2).
  { pose proof (Z.quot_rem' (GetScore m) 2) as Hqr.
    pose proof (Z.rem_bound_pos (GetScore m) 2 Hs ltac:(lia)). lia. }
  set (q := Z.quot (GetScore m) d) in *.
  set (h := Z.quot (GetScore m) 2) in *.
  assert (Hdem : q * ErrorCount m <= h) by (unfold d in Hq; nia).
  split; [exact Hb|]. split; [exact Hdem|].
  rewrite Ht. split; [lia|]. split; [nia|].
  intros e Hlast. rewrite AppendError_some. cbv zeta.
  rewrite ErrorCount_append.
  pose proof (errorLimitOf_le_Max K Hmm m).
  destruct (Z.leb_spec (errorLimitOf K m) (ErrorCount m + 1));
    [reflexivity|lia].
Qed.

Lemma penalty_at_most_half_witness :
  let m := snd (runCalls exampleConsts p10Calls NewManager) in
  ErrorCount m < 100 /\ 4000 <= TotalScore exampleConsts m.
Proof.
  intros m.
  assert (H : ErrorCount m < AllowErrorMax exampleConsts
              /\ Z.quot (GetScore m) (2 * AllowErrorMax exampleConsts)
                 * ErrorCount m <= Z.quot (GetScore m) 2
              /\ Z.quot (GetScore m) 2 <= TotalScore exampleConsts m
              /\ TotalScore exampleConsts m <= GetScore m
              /\ (forall e,
                    AllowErrorMax exampleConsts <= ErrorCount m + 1 ->
                    fst (AppendError exampleConsts (Some e) m)
                    = Some ErrOverLimit)).
  { apply (penalty_at_most_half exampleConsts exampleEnv).
    - simpl. lia.
    - simpl. lia.
    - apply p10_reachable.
    - subst m. vm_compute. discriminate.
    - reflexivity. }
  split; [exact (proj1 H)|exact (proj1 (proj2 (proj2 H)))].
Defined.

(** ** The registry: [PurgeInvestor] *)

Lemma purge_fold :
  forall l cleared cl,
    fold_left purgeStep l (cleared, cl)
    = (cleared ++ filter notRetired l, cl ++ filter IsRetired l).
Proof.
  induction l as [|i l IH]; intros cleared cl; simpl.
  - rewrite !app_nil_r. reflexivity.
  - unfold purgeStep at 2, notRetired at 1. simpl.
    destruct (IsRetired i); simpl; rewrite IH, <- app_assoc; reflexivity.
Qed.

Lemma filter_subsequence :
  forall (A : Type) (f : A -> bool) (l : list A),
    subsequence (filter f l) l.
Proof.
  intros A f. induction l as [|x l IH]; simpl.
  - constructor.
  - destruct (f x); constructor; exact IH.
Qed.

Lemma filter_notRetired_none :
  forall l, filter IsRetired (filter notRetired l) = [].
Proof.
  induction l as [|i l IH]; simpl; [reflexivity|].
  unfold notRetired at 1. destruct (IsRetired i) eqn:Hr; simpl; [exact IH|].
  rewrite Hr. exact IH.
Qed.

Lemma filter_notRetired_idem :
  forall l, filter notRetired (filter notRetired l) = filter notRetired l.
Proof.
  induction l as [|i l IH]; simpl; [reflexivity|].
  destruct (notRetired i) eqn:Hr; simpl; [|exact IH].
  rewrite Hr, IH. reflexivity.
Qed.

Lemma PurgeInvestor_investors :
  forall m, investors (PurgeInvestor m) = filter notRetired (investors m).
Proof. intros m. unfold PurgeInvestor. rewrite purge_fold. reflexivity. Qed.

Lemma PurgeInvestor_closed :
  forall m,
    closed (PurgeInvestor m) = closed m ++ filter IsRetired (investors m).
Proof. intros m. unfold PurgeInvestor. rewrite purge_fold. reflexivity. Qed.

(** C9.  [PurgeInvestor] keeps exactly the investors that do not report
    retired, in their order, closes exactly the retired ones, touches
    nothing else, and a second call in a row changes nothing. *)
Theorem PurgeInvestor_removes_retired :
  forall m,
    investors (PurgeInvestor m) = filter notRetired (investors m)
    /\ closed (PurgeInvestor m) = closed m ++ filter IsRetired (investors m)
    /\ (forall i, In i (investors (PurgeInvestor m))
                  <-> In i (investors m) /\ IsRetired i = false)
    /\ (forall i, In i (investors m) -> IsRetired i = true ->
                  In i (closed (PurgeInvestor m)))
    /\ subsequence (investors (PurgeInvestor m)) (investors m)
    /\ (length (investors (PurgeInvestor m))
        + length (filter IsRetired (investors m))
        = length (investors m))%nat
    /\ ledger (PurgeInvestor m) = ledger m
    /\ level (PurgeInvestor m) = level m
    /\ totalivst (PurgeInvestor m) = totalivst m
    /\ PurgeInvestor (PurgeInvestor m) = PurgeInvestor m.
Proof.
  intros m.
  pose proof (PurgeInvestor_investors m) as Hi.
  pose proof (PurgeInvestor_closed m) as Hc.
  split; [exact Hi|]. split; [exact Hc|].
  split.
  { intros i. rewrite Hi, filter_In. unfold notRetired.
    destruct (IsRetired i); simpl; intuition congruence. }
  split.
  { intros i Hin Hr. rewrite Hc. apply in_or_app. right.
    apply filter_In. split; assumption. }
  split; [rewrite Hi; apply filter_subsequence|].
  split.
  { rewrite Hi. clear Hi Hc.
    induction (investors m) as [|i l IH]; simpl; [reflexivity|].
    unfold notRetired at 1. destruct (IsRetired i); simpl; lia. }
  split; [reflexivity|]. split; [reflexivity|]. split; [reflexivity|].
  unfold PurgeInvestor at 1. rewrite purge_fold.
  rewrite Hi, Hc, filter_notRetired_none, filter_notRetired_idem.
  rewrite app_nil_r. simpl.
  unfold PurgeInvestor. rewrite purge_fold. reflexivity.
Qed.

(** ** Admission batches *)

Section Batches.

Variable K : Consts.
Variable E : Env.
Variable cl : nat -> Client.
Hypothesis clients_ok : clientsAre E cl.

Lemma set_nclients_twice :
  forall m a b, set_nclients (set_nclients m a) b = set_nclients m b.
Proof. reflexivity. Qed.

Lemma addInvestorsLoop_ok :
  forall n j ua p tasks m,
    addInvestorsLoop E n (Z.of_nat j) ua p tasks m
    = (Ok (tasks ++ admissionBatchFrom cl (nclients m) j n ua p),
       set_nclients m (nclients m + n)).
Proof.
  induction n as [|n IH]; intros j ua p tasks m; simpl.
  - rewrite app_nil_r, Nat.add_0_r. destruct m; reflexivity.
  - rewrite clients_ok.
    replace (Z.of_nat j + 1) with (Z.of_nat (S j)) by lia.
    rewrite IH. simpl. rewrite <- app_assoc. simpl.
    rewrite Nat.add_succ_r. reflexivity.
Qed.

Lemma addInvestors_ok :
  forall num ua p tasks m,
    addInvestors E num ua p tasks m
    = (Ok (tasks ++ admissionBatch cl (nclients m) (Z.to_nat num) ua p),
       set_nclients m (nclients m + Z.to_nat num)).
Proof.
  intros. unfold addInvestors, admissionBatch.
  apply (addInvestorsLoop_ok (Z.to_nat num) O).
Qed.


Lemma admissionBatchFrom_nth :
  forall n k j ua p i,
    (i < n)%nat ->
    nth_error (admissionBatchFrom cl k j n ua p) i
    = Some (TaskAdmit (newBatchInvestor (cl (k + i)%nat)
                                        (Z.of_nat (j + i)) ua p)).
Proof.
  induction n as [|n IH]; intros k j ua p i Hi; [lia|].
  destruct i as [|i]; simpl.
  - rewrite !Nat.add_0_r. reflexivity.
  - rewrite IH by lia. rewrite !Nat.add_succ_r. reflexivity.
Qed.

Lemma admissionBatchFrom_countAdmit :
  forall n k j ua p, countAdmit (admissionBatchFrom cl k j n ua p) = n.
Proof.
  induction n as [|n IH]; intros; simpl; [reflexivity|].
  rewrite IH. reflexivity.
Qed.

Lemma countAdmit_app :
  forall l1 l2, countAdmit (l1 ++ l2) = (countAdmit l1 + countAdmit l2)%nat.
Proof.
  induction l1 as [|t l1 IH]; intros l2; simpl; [reflexivity|].
  destruct t; simpl; rewrite IH; reflexivity.
Qed.

(** The parity test of lines 310 and 268 on a loop index. *)
Lemma rem2_odd :
  forall j, (Z.rem (Z.of_nat j) 2 =? 1) = Nat.odd j.
Proof.
  intros j. rewrite Z.rem_mod_nonneg by lia.
  destruct (Nat.odd j) eqn:Ho.
  - apply Nat.odd_spec in Ho. destruct Ho as [h Hh]. subst j.
    apply Z.eqb_eq.
    replace (Z.of_nat (2 * h + 1)) with (1 + Z.of_nat h * 2) by lia.
    rewrite Z.mod_add by lia. reflexivity.
  - assert (He : Nat.even j = true).
    { rewrite <- Nat.negb_odd, Ho. reflexivity. }
    apply Nat.even_spec in He. destruct He as [h Hh]. subst j.
    apply Z.eqb_neq.
    replace (Z.of_nat (2 * h)) with (0 + Z.of_nat h * 2) by lia.
    rewrite Z.mod_add by lia. discriminate.
Qed.

End Batches.

(** ** The loops of [Next] *)

Lemma startLoop_closed :
  forall invs start tasks,
    1 <= start ->
    startLoop invs start tasks
    = tasks ++ map TaskStart (firstn (Z.to_nat start) (filter unstarted invs)).
Proof.
  induction invs as [|i invs IH]; intros start tasks Hs; simpl.
  - rewrite firstn_nil, app_nil_r. reflexivity.
  - unfold unstarted at 1. destruct (IsStarted i); simpl.
    + destruct (Z.leb_spec start 0); [lia|]. apply IH. exact Hs.
    + replace (Z.to_nat start) with (S (Z.to_nat (start - 1))) by lia.
      simpl. destruct (Z.leb_spec (start - 1) 0) as [Hle|Hgt].
      * replace (Z.to_nat (start - 1)) with O by lia. reflexivity.
      * rewrite IH by lia. rewrite <- app_assoc. reflexivity.
Qed.

Lemma set_nclients_same : forall m, set_nclients m (nclients m) = m.
Proof. intros m. destruct m; reflexivity. Qed.

Lemma bump_add : forall a b c, bump (a + b) c = bump b (bump a c).
Proof.
  induction a as [|a IH]; intros b c; simpl; [reflexivity|]. apply IH.
Qed.

Section Loops.

Variable K : Consts.
Variable E : Env.

(** *** Errors of the loops come from the client constructor *)






(** *** A tick on which nothing happens *)


Lemma naturalGrowth_below :
  forall fuel sc p tasks m,
    sc < mul64 (shl64 1 (level m)) 100 ->
    naturalGrowth K E (S fuel) sc p tasks m = Some (Ok tasks, m).
Proof.
  intros fuel sc p tasks m H. simpl.
  destruct (Z.ltb_spec sc (mul64 (shl64 1 (level m)) 100)); [reflexivity|lia].
Qed.

Lemma naturalGrowth_gated :
  forall fuel sc p tasks m,
    AllowErrorMin K < ErrorCount m ->
    naturalGrowth K E (S fuel) sc p tasks m = Some (Ok tasks, m).
Proof.
  intros fuel sc p tasks m H. simpl.
  destruct (sc <? _); [reflexivity|].
  destruct (Z.ltb_spec (AllowErrorMin K) (ErrorCount m)); [reflexivity|lia].
Qed.

End Loops.

(** ** Growth when the client constructor does not fail *)

Section Growth.

Variable K : Consts.
Variable E : Env.
Variable cl : nat -> Client.
Hypothesis clients_ok : clientsAre E cl.

Let shareSize : nat := Z.to_nat (AddUsersOnShare K).
Let naturalSize : nat := Z.to_nat (AddUsersOnNatural K).

Lemma tradesLoop_ok :
  forall trades tasks c m,
    tradesLoop K E trades tasks c m
    = (Ok (tasks ++ tradeBatches cl (nclients m) shareSize trades,
           bump (length trades) c),
       set_nclients m (nclients m + shareSize * length trades)).
Proof.
  induction trades as [|t trades IH]; intros tasks c m; simpl.
  - rewrite app_nil_r, Nat.mul_0_r, Nat.add_0_r, set_nclients_same.
    reflexivity.
  - rewrite (addInvestors_ok E cl clients_ok). rewrite IH. simpl.
    fold shareSize. rewrite <- app_assoc.
    replace (nclients m + shareSize + shareSize * length trades)%nat
      with (nclients m + shareSize * S (length trades))%nat by lia.
    reflexivity.
Qed.

Lemma shareLoop_ok :
  forall invs tasks p c m,
    shareLoop K E invs (tasks, p, c) m
    = (Ok (tasks ++ shareTasks cl (nclients m) shareSize invs,
           lastPrice invs p,
           bump (sharedCount invs) c),
       set_nclients m (nclients m + shareSize * sharedCount invs)).
Proof.
  induction invs as [|i invs IH]; intros tasks p c m; simpl.
  - rewrite app_nil_r, Nat.mul_0_r, Nat.add_0_r, set_nclients_same.
    reflexivity.
  - unfold eligible.
    destruct (IsStartCompleted i); simpl; [|apply IH].
    destruct (IsRetired i); simpl; [apply IH|].
    rewrite tradesLoop_ok. rewrite IH. simpl.
    rewrite bump_add. unfold workOf.
    replace (nclients m + shareSize * length (SharedTrades i)
             + shareSize * sharedCount invs)%nat
      with (nclients m
            + shareSize * (length (SharedTrades i) + sharedCount invs))%nat
      by lia.
    destruct (NextTask i); rewrite <- !app_assoc; reflexivity.
Qed.

Lemma tradeBatches_countAdmit :
  forall trades k,
    countAdmit (tradeBatches cl k shareSize trades)
    = (shareSize * length trades)%nat.
Proof.
  induction trades as [|t trades IH]; intros k; simpl; [lia|].
  rewrite countAdmit_app, IH. unfold admissionBatch.
  rewrite admissionBatchFrom_countAdmit. lia.
Qed.

Lemma shareTasks_countAdmit :
  forall invs k,
    countAdmit (shareTasks cl k shareSize invs)
    = (shareSize * sharedCount invs)%nat.
Proof.
  induction invs as [|i invs IH]; intros k; simpl; [lia|].
  destruct (eligible i); [|apply IH].
  rewrite !countAdmit_app, tradeBatches_countAdmit, IH.
  unfold workOf. destruct (NextTask i); simpl; lia.
Qed.



(** *** Natural growth below the overflow of the threshold *)

Lemma naturalGrowth_level_up :
  forall fuel sc p tasks m,
    0 <= level m <= 56 ->
    2 ^ level m * 100 <= sc ->
    ErrorCount m <= AllowErrorMin K ->
    naturalGrowth K E (S fuel) sc p tasks m
    = naturalGrowth K E fuel sc p
        (tasks ++ admissionBatch cl (nclients m) naturalSize (level m + 2) p)
        (leveledUp m 1 naturalSize).
Proof.
  intros fuel sc p tasks m Hl Hsc Hec. simpl.
  rewrite nextScore_exact by lia.
  destruct (Z.ltb_spec sc (2 ^ level m * 100)); [lia|].
  destruct (Z.ltb_spec (AllowErrorMin K) (ErrorCount m)); [lia|].
  rewrite (addInvestors_ok E cl clients_ok). simpl.
  assert (Hu : wrapU64 (level m + 1) = level m + 1)
    by (unfold wrapU64; rewrite Z.mod_small; lia).
  rewrite Hu.
  assert (Hu2 : wrap64 (wrapU64 (level m + 1 + 1)) = level m + 2).
  { unfold wrapU64. rewrite Z.mod_small by lia.
    rewrite wrap64_id; [lia|].
    unfold in_int64, min_int64, max_int64. lia. }
  rewrite Hu2. fold naturalSize.
  unfold leveledUp, Printf. simpl.
  rewrite Nat.mul_1_r. reflexivity.
Qed.

Lemma leveledUp_succ :
  forall m n size,
    leveledUp (leveledUp m 1 size) n size = leveledUp m (S n) size.
Proof.
  intros m n size. unfold leveledUp. simpl.
  rewrite <- app_assoc. simpl.
  replace (level m + 1 + Z.of_nat n) with (level m + Z.pos (Pos.of_succ_nat n))
    by lia.
  replace (nclients m + size * 1 + size * n)%nat
    with (nclients m + size * S n)%nat by lia.
  reflexivity.
Qed.

(** From a level at most 56 and a score under [100 * 2^56] the loop
    stops after crossing every threshold the score has reached. *)
Lemma naturalGrowth_closed :
  forall d fuel sc p tasks m,
    0 <= level m ->
    level m + Z.of_nat d = 56 ->
    sc < 100 * 2 ^ 56 ->
    ErrorCount m <= AllowErrorMin K ->
    (d < fuel)%nat ->
    exists n,
      (n <= d)%nat
      /\ naturalGrowth K E fuel sc p tasks m
         = Some (Ok (tasks ++ naturalTasks cl (nclients m) naturalSize
                                           (level m) n p),
                 leveledUp m n naturalSize)
      /\ sc < 2 ^ (level m + Z.of_nat n) * 100
      /\ (forall l, level m <= l < level m + Z.of_nat n -> 2 ^ l * 100 <= sc).
Proof.
  induction d as [|d IH]; intros fuel sc p tasks m Hl0 Hl Hsc Hec Hf;
    (destruct fuel as [|fuel]; [lia|]).
  - exists O. split; [lia|].
    assert (Hlev : level m = 56) by lia.
    split.
    + rewrite naturalGrowth_below
        by (rewrite nextScore_exact by lia; rewrite Hlev; lia).
      simpl. rewrite app_nil_r. unfold leveledUp. simpl.
      rewrite Z.add_0_r, app_nil_r, Nat.mul_0_r, Nat.add_0_r.
      destruct m; reflexivity.
    + split; [rewrite Z.add_0_r, Hlev; lia|]. intros l Hlr. lia.
  - destruct (Z.lt_ge_cases sc (2 ^ level m * 100)) as [Hlt|Hge].
    + exists O. split; [lia|]. split.
      * rewrite naturalGrowth_below by (rewrite nextScore_exact by lia; lia).
        simpl. rewrite app_nil_r. unfold leveledUp. simpl.
        rewrite Z.add_0_r, app_nil_r, Nat.mul_0_r, Nat.add_0_r.
        destruct m; reflexivity.
      * split; [rewrite Z.add_0_r; lia|]. intros l Hlr. lia.
    + rewrite naturalGrowth_level_up by lia.
      destruct (IH fuel sc p
                   (tasks ++ admissionBatch cl (nclients m) naturalSize
                                            (level m + 2) p)
                   (leveledUp m 1 naturalSize))
        as [n [Hn [Hrun [Hstop Hcross]]]]; simpl; try lia.
      { exact Hec. }
      exists (S n). split; [lia|]. split.
      * rewrite Hrun. rewrite leveledUp_succ. simpl.
        rewrite <- app_assoc.
        replace (nclients m + naturalSize * 1)%nat
          with (nclients m + naturalSize)%nat by lia.
        replace (level m + 1 + 1) with (level m + 2) by lia.
        reflexivity.
      * simpl in Hstop, Hcross. split.
        -- replace (level m + Z.of_nat (S n))
             with (level m + 1 + Z.of_nat n) by lia. exact Hstop.
        -- intros l Hlr.
           destruct (Z.eq_dec l (level m)) as [->|Hne]; [exact Hge|].
           apply Hcross. lia.
Qed.

End Growth.

(** ** The tick as a whole *)

Section TickResults.

Variable K : Consts.
Variable E : Env.
Variable cl : nat -> Client.
Hypothesis clients_ok : clientsAre E cl.

Lemma newBatchInvestor_fields :
  forall c j ua p,
    oddCreditEvenInventory (newBatchInvestor c (Z.of_nat j) ua p) j ua p.
Proof.
  intros c j ua p. unfold oddCreditEvenInventory, newBatchInvestor.
  rewrite rem2_odd. rewrite <- (Nat.negb_odd j).
  destruct (Nat.odd j); simpl; repeat split; intros; try discriminate;
    reflexivity.
Qed.

Lemma admissionBatch_nth :
  forall k n ua p j,
    (j < n)%nat ->
    exists inv,
      nth_error (admissionBatch cl k n ua p) j = Some (TaskAdmit inv)
      /\ client inv = cl (k + j)%nat
      /\ oddCreditEvenInventory inv j ua p.
Proof.
  intros k n ua p j Hj. unfold admissionBatch.
  rewrite admissionBatchFrom_nth by exact Hj. simpl.
  eexists. split; [reflexivity|]. split.
  - unfold newBatchInvestor. destruct (_ =? _); reflexivity.
  - apply newBatchInvestor_fields.
Qed.

Lemma leveledUp_zero : forall m size, leveledUp m 0 size = m.
Proof.
  intros m size. unfold leveledUp. simpl.
  rewrite Z.add_0_r, app_nil_r, Nat.mul_0_r, Nat.add_0_r.
  destruct m; reflexivity.
Qed.

Lemma naturalGrowth_returns :
  forall fuel p tasks m,
    growthBounded K m ->
    (57 <= fuel)%nat ->
    exists n,
      naturalGrowth K E fuel (score m) p tasks m
      = Some (Ok (tasks ++ naturalTasks cl (nclients m)
                                        (Z.to_nat (AddUsersOnNatural K))
                                        (level m) n p),
              leveledUp m n (Z.to_nat (AddUsersOnNatural K))).
Proof.
  intros fuel p tasks m Hb Hf.
  destruct (Z.lt_ge_cases (AllowErrorMin K) (ErrorCount m)) as [Hgate|Hopen].
  - exists O. destruct fuel as [|fuel]; [lia|].
    rewrite naturalGrowth_gated by exact Hgate.
    simpl. rewrite app_nil_r, leveledUp_zero. reflexivity.
  - destruct Hb as [Hgate|[Hl Hs]]; [lia|].
    destruct (naturalGrowth_closed K E cl clients_ok
                (Z.to_nat (56 - level m)) fuel (score m) p tasks m)
      as [n [_ [Hrun _]]]; try lia.
    exists n. exact Hrun.
Qed.

(** [Next] on a state with at least one investor left after the purge. *)
Lemma Next_returns :
  forall fuel m,
    investors (PurgeInvestor m) <> [] ->
    growthBounded K m ->
    (57 <= fuel)%nat ->
    let survivors := investors (PurgeInvestor m) in
    let shareSize := Z.to_nat (AddUsersOnShare K) in
    let naturalSize := Z.to_nat (AddUsersOnNatural K) in
    exists n m',
      Next K E fuel m
      = Some (Ok (startTasks survivors
                  ++ shareTasks cl (nclients m) shareSize survivors
                  ++ naturalTasks cl
                       (nclients m + shareSize * sharedCount survivors)
                       naturalSize (level m) n (lastPrice survivors 5000)),
              m')
      /\ level m' = level m + Z.of_nat n
      /\ investors m' = survivors
      /\ ledger m' = ledger m.
Proof.
  intros fuel m Hne Hb Hf survivors shareSize naturalSize.
  unfold Next.
  destruct (Z.eqb_spec (ActiveInvestors (PurgeInvestor m)) 0) as [H0|_].
  { unfold ActiveInvestors in H0.
    destruct (investors (PurgeInvestor m)); [congruence|simpl in H0; lia]. }
  rewrite startLoop_closed by lia.
  rewrite (shareLoop_ok K E cl clients_ok). cbv beta iota.
  rewrite app_nil_l. change (Z.to_nat 2) with 2%nat.
  fold (startTasks (investors (PurgeInvestor m))).
  fold survivors. fold shareSize.
  change (nclients (PurgeInvestor m)) with (nclients m).
  set (m1 := set_nclients (PurgeInvestor m) _).
  set (c := bump (sharedCount survivors) 0).
  set (m2 := if c >? 0 then Printf (LogShared c) m1 else m1).
  assert (Hm2 : score m2 = score m /\ level m2 = level m
                /\ errors m2 = errors m /\ overError m2 = overError m
                /\ investors m2 = survivors
                /\ nclients m2
                   = (nclients m + shareSize * sharedCount survivors)%nat).
  { unfold m2. destruct (c >? 0); simpl; repeat split; reflexivity. }
  destruct Hm2 as [Hsc [Hlv [Her [Hov [Hinv Hnc]]]]].
  assert (Hb2 : growthBounded K m2).
  { unfold growthBounded, ErrorCount in *. rewrite Hsc, Hlv, Her. exact Hb. }
  destruct (naturalGrowth_returns fuel (lastPrice survivors 5000)
              (startTasks survivors
               ++ shareTasks cl (nclients m) shareSize survivors)
              m2 Hb2 Hf) as [n Hrun].
  exists n, (leveledUp m2 n naturalSize).
  unfold GetScore. rewrite Hrun, Hnc, Hlv, <- app_assoc.
  split; [reflexivity|].
  unfold leveledUp, ledger. simpl. rewrite Hlv, Hinv, Hsc, Her, Hov.
  repeat split; reflexivity.
Qed.

End TickResults.

(** ** The default population of [Start] *)

Section DefaultPopulation.

Variable E : Env.
Variable cl : nat -> Client.
Hypothesis clients_ok : clientsAre E cl.

Lemma startDefaultLoop_ok :
  forall n j tasks m,
    fst (startDefaultLoop E n (Z.of_nat j) tasks m)
    = Ok (tasks ++ map TaskStart (defaultPopulationFrom cl (nclients m) j n))
    /\ investors (snd (startDefaultLoop E n (Z.of_nat j) tasks m))
       = investors m ++ defaultPopulationFrom cl (nclients m) j n
    /\ nclients (snd (startDefaultLoop E n (Z.of_nat j) tasks m))
       = (nclients m + n)%nat.
Proof.
  induction n as [|n IH]; intros j tasks m; simpl.
  - rewrite !app_nil_r, Nat.add_0_r. repeat split; reflexivity.
  - rewrite clients_ok.
    replace (Z.of_nat j + 1) with (Z.of_nat (S j)) by lia.
    set (inv := newDefaultInvestor (cl (nclients m)) (Z.of_nat j)).
    set (m3 := AddInvestor inv _).
    assert (Hm3 : nclients m3 = S (nclients m)
                  /\ investors m3 = investors m ++ [inv]).
    { unfold m3. destruct (Credit inv >? 0); split; reflexivity. }
    destruct Hm3 as [Hn Hi].
    destruct (IH (S j) (tasks ++ [TaskStart inv]) m3) as [H1 [H2 H3]].
    rewrite H1, H2, H3, Hn, Hi, <- !app_assoc. simpl.
    repeat split; try reflexivity. lia.
Qed.

Lemma newDefaultInvestor_fields :
  forall c j,
    oddCreditEvenInventoryDefault (newDefaultInvestor c (Z.of_nat j)) j.
Proof.
  intros c j. unfold oddCreditEvenInventoryDefault, newDefaultInvestor.
  rewrite rem2_odd. rewrite <- (Nat.negb_odd j).
  assert (Hq : Z.quot (Z.of_nat j) 2 = Z.of_nat (j / 2)).
  { rewrite Z.quot_div_nonneg by lia.
    change 2 with (Z.of_nat 2). rewrite <- Nat2Z.inj_div. reflexivity. }
  rewrite Hq.
  destruct (Nat.odd j); simpl; repeat split; intros; try discriminate;
    reflexivity.
Qed.

Lemma defaultPopulationFrom_nth :
  forall n k j i,
    (i < n)%nat ->
    nth_error (defaultPopulationFrom cl k j n) i
    = Some (newDefaultInvestor (cl (k + i)%nat) (Z.of_nat (j + i))).
Proof.
  induction n as [|n IH]; intros k j i Hi; [lia|].
  destruct i as [|i]; simpl.
  - rewrite !Nat.add_0_r. reflexivity.
  - rewrite IH by lia. rewrite !Nat.add_succ_r. reflexivity.
Qed.

End DefaultPopulation.

Lemma exampleEnv_clients : clientsAre exampleEnv exampleClients.
Proof. intros k. reflexivity. Qed.


(** ** [Next]: the fail-fast check and the idle tick *)



(** ** [Next]: growth triggered by shared trades *)



(** ** Admission batches: which index gets credit *)

(** C5, the claim as stated fails: in a batch of [addInvestors] for
    amount 10 and price 5000, and in the default population of [Start],
    the investor at index 0 holds inventory and no credit. *)
Lemma admission_parity_counterexample :
  match fst (addInvestors exampleEnv 2 10 5000 [] NewManager) with
  | Ok tasks => ~ evenBuyerOddSeller (flat_map admitted tasks)
  | Err _ => False
  end
  /\ match Start exampleConsts exampleEnv NewManager with
     | Some (Ok _, m') => ~ evenBuyerOddSeller (firstn 2 (investors m'))
     | _ => False
     end.
Proof.
  split.
  - simpl. intros H.
    destruct (H O _ eq_refl) as [Hbuyer _].
    destruct (Hbuyer eq_refl) as [Hcredit _].
    simpl in Hcredit. lia.
  - simpl. intros H.
    destruct (H O _ eq_refl) as [Hbuyer _].
    destruct (Hbuyer eq_refl) as [Hcredit _].
    simpl in Hcredit. lia.
Qed.

(** C5, amended.  While the client constructor does not fail, the
    investor at index [j] of an admission batch of [addInvestors] for
    [(unitamount, price)] is built, in 64-bit arithmetic, with credit
    [price * 1000], inventory 0 and unit price [price - 2] when [j] is
    odd, and with credit 0, inventory [unitamount * 100] and unit price
    [price + 5] when [j] is even, with unit amount [unitamount] in both
    cases.  Hence the odd index is a buyer seeded with credit and no
    inventory whenever [0 < price <= 9223372036854775], and the even index
    a seller seeded with inventory and no credit whenever
    [0 < unitamount <= 92233720368547758]; outside these bounds the
    product is not positive or wraps and nothing more is stated.  The
    investor at index [j] of the default population of [Start] is built
    with credit 100000 and no inventory when [j] is odd (a buyer), with
    no credit and inventory 5 when [j] is even (a seller), with unit
    amount 1 and unit price [5105 + j / 2], in 64-bit arithmetic, in both
    cases. *)
Theorem admission_parity_by_index :
  forall K E cl,
    clientsAre E cl ->
    (forall num unitamount price tasks m,
        addInvestors E num unitamount price tasks m
        = (Ok (tasks ++ admissionBatch cl (nclients m) (Z.to_nat num)
                                       unitamount price),
           set_nclients m (nclients m + Z.to_nat num)))
    /\ (forall k n unitamount price j,
          (j < n)%nat ->
          exists inv,
            nth_error (admissionBatch cl k n unitamount price) j
            = Some (TaskAdmit inv)
            /\ oddCreditEvenInventory inv j unitamount price
            /\ (0 < price <= 9223372036854775 ->
                Nat.odd j = true -> buyerSeed inv)
            /\ (0 < unitamount <= 92233720368547758 ->
                Nat.even j = true -> sellerSeed inv))
    /\ (forall m,
          let n := Z.to_nat (DefaultWorkers K) in
          fst (startDefaultLoop E n 0 [] m)
          = Ok (map TaskStart (defaultPopulationFrom cl (nclients m) 0 n))
          /\ investors (snd (startDefaultLoop E n 0 [] m))
             = investors m ++ defaultPopulationFrom cl (nclients m) 0 n)
    /\ (forall k n j,
          (j < n)%nat ->
          exists inv,
            nth_error (defaultPopulationFrom cl k 0 n) j = Some inv
            /\ oddCreditEvenInventoryDefault inv j
            /\ (Nat.odd j = true -> buyerSeed inv)
            /\ (Nat.even j = true -> sellerSeed inv)).
Proof.
  intros K E cl Hcl.
  split; [intros; apply (addInvestors_ok E cl Hcl)|].
  split.
  { intros k n ua p j Hj.
    destruct (admissionBatch_nth cl k n ua p j Hj) as [inv [Hnth [_ Hf]]].
    exists inv. split; [exact Hnth|]. split; [exact Hf|].
    destruct Hf as [_ [_ [Hodd Heven]]].
    split.
    - intros Hp Ho. destruct (Hodd Ho) as [Hc [Hi _]].
      unfold buyerSeed. rewrite Hc, Hi. split; [|reflexivity].
      unfold mul64. rewrite wrap64_id; [lia|].
      unfold in_int64, min_int64, max_int64. lia.
    - intros Hu He. destruct (Heven He) as [Hc [Hi _]].
      unfold sellerSeed. rewrite Hc, Hi. split; [|reflexivity].
      unfold mul64. rewrite wrap64_id; [lia|].
      unfold in_int64, min_int64, max_int64. lia. }
  split.
  { intros m n.
    destruct (startDefaultLoop_ok E cl Hcl n O [] m) as [H1 [H2 _]].
    split; [exact H1|exact H2]. }
  intros k n j Hj.
  rewrite (defaultPopulationFrom_nth cl n k O j Hj). simpl.
  eexists. split; [reflexivity|].
  pose proof (newDefaultInvestor_fields (cl (k + j)%nat) j) as Hf.
  split; [exact Hf|].
  destruct Hf as [_ [_ [_ [Hodd Heven]]]].
  split.
  - intros Ho. destruct (Hodd Ho) as [Hc Hi].
    unfold buyerSeed. rewrite Hc, Hi. split; [lia|reflexivity].
  - intros He. destruct (Heven He) as [Hc Hi].
    unfold sellerSeed. rewrite Hc, Hi. split; [lia|reflexivity].
Qed.

(** The batch of P6: index 1 is a buyer with credit 5000000, index 0 a
    seller with inventory 1000. *)
Lemma admission_parity_by_index_witness :
  addInvestors exampleEnv 2 10 5000 [] NewManager
  = (Ok (admissionBatch exampleClients 0 2 10 5000),
     set_nclients NewManager 2)
  /\ (exists inv,
        nth_error (admissionBatch exampleClients 0 2 10 5000) 1
        = Some (TaskAdmit inv)
        /\ Credit inv = 5000000 /\ buyerSeed inv)
  /\ (exists inv,
        nth_error (admissionBatch exampleClients 0 2 10 5000) 0
        = Some (TaskAdmit inv)
        /\ Isu inv = 1000 /\ sellerSeed inv).
Proof.
  destruct (admission_parity_by_index exampleConsts exampleEnv
              exampleClients exampleEnv_clients) as [Hadd [Hidx _]].
  split; [apply (Hadd 2 10 5000 [] NewManager)|].
  split.
  - destruct (Hidx O 2%nat 10 5000 1%nat ltac:(lia))
      as [inv [Hnth [Hf [Hbuyer _]]]].
    exists inv. split; [exact Hnth|].
    split.
    + destruct Hf as [_ [_ [Hodd _]]].
      destruct (Hodd eq_refl) as [Hc _]. rewrite Hc. reflexivity.
    + apply Hbuyer; [lia|reflexivity].
  - destruct (Hidx O 2%nat 10 5000 O ltac:(lia))
      as [inv [Hnth [Hf [_ Hseller]]]].
    exists inv. split; [exact Hnth|].
    split.
    + destruct Hf as [_ [_ [_ Heven]]].
      destruct (Heven eq_refl) as [_ [Hi _]]. rewrite Hi. reflexivity.
    + apply Hseller; [lia|reflexivity].
Defined.

(** ** [Next]: natural growth *)

(** P5: a score of 100 at level 0 with no error gives exactly one
    level-up and one batch of [AddUsersOnNatural] (here 3) admissions with
    unit amount 2 at the latest trade price. *)
Example natural_growth_one_level :
  Next exampleConsts exampleEnv 57 p5State
  = Some (Ok (admissionBatch exampleClients 0 3 2 5000),
          leveledUp p5State 1 3).
Proof. vm_compute. reflexivity. Qed.

(** A score of 400 at level 0 crosses the thresholds 100, 200 and 400 in a
    single call. *)
Example natural_growth_three_levels :
  Next exampleConsts exampleEnv 57 threeLevelsState
  = Some (Ok (admissionBatch exampleClients 0 3 2 5000
              ++ admissionBatch exampleClients 3 3 3 5000
              ++ admissionBatch exampleClients 6 3 4 5000),
          leveledUp threeLevelsState 3 3).
Proof. vm_compute. reflexivity. Qed.

(** With six errors against [AllowErrorMin = 5] the same score of 100
    gives no level-up. *)
Example natural_growth_gated :
  Next exampleConsts exampleEnv 57 gatedState = Some (Ok [], gatedState).
Proof. vm_compute. reflexivity. Qed.

Lemma nextScore_from_62 :
  forall l, 62 <= l -> mul64 (shl64 1 l) 100 = 0.
Proof.
  intros l Hl. unfold shl64.
  destruct (Z.ltb_spec l 64) as [Hlt|Hge]; [|reflexivity].
  assert (Hc : l = 62 \/ l = 63) by lia.
  destruct Hc as [->| ->]; vm_compute; reflexivity.
Qed.

(** With the largest [int64] score no threshold test ever stops the
    loop. *)
Lemma naturalGrowth_max_score :
  forall K E cl,
    clientsAre E cl ->
    forall fuel p tasks m,
      ErrorCount m <= AllowErrorMin K ->
      naturalGrowth K E fuel max_int64 p tasks m = None.
Proof.
  intros K E cl Hcl.
  induction fuel as [|fuel IH]; intros p tasks m Hec; [reflexivity|].
  simpl.
  pose proof (wrap64_range (shl64 1 (level m) * 100)) as [_ Hhi].
  fold (mul64 (shl64 1 (level m)) 100) in Hhi.
  destruct (Z.ltb_spec max_int64 (mul64 (shl64 1 (level m)) 100)); [lia|].
  destruct (Z.ltb_spec (AllowErrorMin K) (ErrorCount m)); [lia|].
  rewrite (addInvestors_ok E cl Hcl). apply IH. exact Hec.
Qed.

(** C4, where the code departs from the claim.  After
    [AddScore(9223372036854775807)] the threshold [(1 << level) * 100]
    wraps around: at level 57 it is negative although [2^57 * 100] is
    above the score, at level 62 and from level 64 on it is 0, the loop
    levels up where the score has not reached [2^level * 100], and [Next]
    never returns. *)
Theorem natural_growth_threshold_overflow :
  GetScore overflowState = 9223372036854775807
  /\ GetScore overflowState < 2 ^ 57 * 100
  /\ mul64 (shl64 1 57) 100 = - (7 * 2 ^ 59)
  /\ mul64 (shl64 1 62) 100 = 0
  /\ mul64 (shl64 1 64) 100 = 0
  /\ (forall fuel p tasks,
        naturalGrowth exampleConsts exampleEnv (S fuel)
                      (GetScore overflowState) p tasks
                      (set_level overflowState 57)
        = naturalGrowth exampleConsts exampleEnv fuel
                        (GetScore overflowState) p
                        (tasks ++ admissionBatch exampleClients 0 3 59 p)
                        (leveledUp (set_level overflowState 57) 1 3))
  /\ (forall fuel, Next exampleConsts exampleEnv fuel overflowState = None).
Proof.
  split; [vm_compute; reflexivity|].
  split; [vm_compute; reflexivity|].
  split; [vm_compute; reflexivity|].
  split; [vm_compute; reflexivity|].
  split; [vm_compute; reflexivity|].
  split.
  - intros fuel p tasks.
    change (GetScore overflowState) with max_int64.
    cbn [naturalGrowth].
    change (max_int64 <?
            mul64 (shl64 1 (level (set_level overflowState 57))) 100)
      with false.
    change (AllowErrorMin exampleConsts
            <? ErrorCount (set_level overflowState 57)) with false.
    cbv iota.
    rewrite (addInvestors_ok exampleEnv exampleClients exampleEnv_clients).
    reflexivity.
  - intros fuel.
    change (Next exampleConsts exampleEnv fuel overflowState)
      with (naturalGrowth exampleConsts exampleEnv fuel max_int64 5000 []
                          overflowState).
    apply (naturalGrowth_max_score exampleConsts exampleEnv exampleClients
                                   exampleEnv_clients).
    vm_compute. discriminate.
Qed.

(** ** The identity prefetch queue *)

Lemma run_conservation :
  forall evs s out s' out',
    IdentityQueue.run evs s out = Some (s', out') ->
    out' ++ IdentityQueue.held s'
    = out ++ IdentityQueue.held s ++ IdentityQueue.minted evs.
Proof.
  induction evs as [|ev evs IH]; intros s out s' out' H; simpl in H.
  - inversion H; subst. simpl. rewrite app_nil_r. reflexivity.
  - destruct ev as [id bank| | | |].
    + destruct (IdentityQueue.mint id bank s) as [s1|] eqn:Hm;
        [|discriminate].
      rewrite (IH _ _ _ _ H). simpl.
      unfold IdentityQueue.mint in Hm.
      destruct (IdentityQueue.returned s); [discriminate|].
      destruct (IdentityQueue.ctxDone s); [discriminate|].
      destruct (IdentityQueue.pending s) eqn:Hp; [discriminate|].
      inversion Hm; subst. unfold IdentityQueue.held. simpl. rewrite Hp.
      rewrite ?app_nil_r, <- ?app_assoc. simpl. reflexivity.
    + destruct (IdentityQueue.send s) as [s1|] eqn:Hs; [|discriminate].
      rewrite (IH _ _ _ _ H). simpl.
      unfold IdentityQueue.send in Hs.
      destruct (IdentityQueue.pending s) as [id|] eqn:Hp; [|discriminate].
      destruct (_ <? _)%nat; [|discriminate].
      inversion Hs; subst. unfold IdentityQueue.held. simpl. rewrite Hp.
      rewrite ?app_nil_r, <- ?app_assoc. simpl. reflexivity.
    + destruct (IdentityQueue.ret s) as [s1|] eqn:Hr; [|discriminate].
      rewrite (IH _ _ _ _ H). simpl.
      unfold IdentityQueue.ret in Hr.
      destruct (IdentityQueue.returned s); [discriminate|].
      destruct (IdentityQueue.pending s) eqn:Hp; [discriminate|].
      destruct (IdentityQueue.ctxDone s); [|discriminate].
      inversion Hr; subst. unfold IdentityQueue.held. simpl. rewrite Hp.
      reflexivity.
    + rewrite (IH _ _ _ _ H). reflexivity.
    + destruct (IdentityQueue.FetchNewID s) as [[id s1]|] eqn:Hf;
        [|discriminate].
      rewrite (IH _ _ _ _ H). simpl.
      unfold IdentityQueue.FetchNewID in Hf.
      destruct (IdentityQueue.idlist s) as [|id0 rest] eqn:Hl;
        [discriminate|].
      inversion Hf; subst. unfold IdentityQueue.held. simpl. rewrite Hl.
      rewrite <- ?app_assoc. simpl. reflexivity.
Qed.




(** * Further properties *)

(** ** The score ledger and the error list *)

Lemma wrap64_add_idem : forall a b, wrap64 (wrap64 a + b) = wrap64 (a + b).
Proof.
  intros a b. unfold wrap64. f_equal.
  replace ((a + 2 ^ 63) mod 2 ^ 64 - 2 ^ 63 + b + 2 ^ 63)
    with ((a + 2 ^ 63) mod 2 ^ 64 + b) by lia.
  rewrite Zplus_mod_idemp_l. f_equal. lia.
Qed.

Lemma AppendError_score :
  forall K e m, score (snd (AppendError K e m)) = score m.
Proof.
  intros K [e|] m; [|reflexivity].
  rewrite AppendError_some. cbv zeta. destruct (_ <=? _); reflexivity.
Qed.

Lemma AppendError_errors :
  forall K e m,
    errors (snd (AppendError K e m))
    = errors m ++ match e with Some e' => [e'] | None => [] end.
Proof.
  intros K [e|] m; [|simpl; rewrite app_nil_r; reflexivity].
  rewrite AppendError_some. cbv zeta. destruct (_ <=? _); reflexivity.
Qed.

Lemma runCalls_errors :
  forall K calls m,
    errors (snd (runCalls K calls m)) = errors m ++ recorded calls.
Proof.
  intros K. induction calls as [|c calls IH]; intros m.
  - simpl. rewrite app_nil_r. reflexivity.
  - destruct c as [[e|]|delta]; cbn [runCalls recorded snd]; rewrite IH.
    + rewrite AppendError_errors, <- app_assoc. reflexivity.
    + rewrite AppendError_errors, app_nil_r. reflexivity.
    + reflexivity.
Qed.

Lemma GetErrorsString_map :
  forall m, GetErrorsString m = map Error (errors m).
Proof.
  intros m. unfold GetErrorsString.
  assert (H : forall l r,
             fold_left (fun r e => r ++ [Error e]) l r = r ++ map Error l).
  { induction l as [|e l IH]; intros r; simpl.
    - rewrite app_nil_r. reflexivity.
    - rewrite IH, <- app_assoc. reflexivity. }
  apply H.
Qed.

(** X1.  The score after any sequence of [AddScore] and [AppendError]
    calls is the starting score plus the sum of the deltas, wrapped to 64
    bits: [AppendError] never writes the score and the order of the
    additions does not matter. *)
Theorem score_is_wrapped_sum :
  forall K calls m,
    in_int64 (score m) ->
    GetScore (snd (runCalls K calls m))
    = wrap64 (score m + sumDeltas calls)
    /\ in_int64 (GetScore (snd (runCalls K calls m))).
Proof.
  intros K. unfold GetScore.
  induction calls as [|c calls IH]; intros m Hs.
  - simpl. rewrite Z.add_0_r, wrap64_id by exact Hs. split; [reflexivity|].
    exact Hs.
  - destruct c as [e|delta]; cbn [runCalls sumDeltas snd].
    + destruct (IH (snd (AppendError K e m))) as [H1 H2].
      { rewrite AppendError_score. exact Hs. }
      rewrite AppendError_score in H1. split; assumption.
    + destruct (IH (AddScore delta m)) as [H1 H2].
      { apply wrap64_range. }
      split; [|exact H2]. rewrite H1. simpl. unfold add64.
      rewrite wrap64_add_idem. f_equal. lia.
Qed.

Lemma score_is_wrapped_sum_witness :
  GetScore (snd (runCalls exampleConsts p10Calls NewManager)) = wrap64 8000.
Proof.
  apply (proj1 (score_is_wrapped_sum exampleConsts p10Calls NewManager
                  ltac:(unfold in_int64, min_int64, max_int64; simpl; lia))).
Defined.

(** X2.  [GetErrorsString] lists the messages of exactly the non-nil
    errors passed to [AppendError], in call order: nil records and score
    additions leave no entry, and the budget-exceeded failure that
    [AppendError] returns is not itself recorded. *)
Theorem GetErrorsString_lists_recorded :
  forall K calls m,
    GetErrorsString (snd (runCalls K calls m))
    = GetErrorsString m ++ map Error (recorded calls)
    /\ GetErrorsString (snd (runCalls K calls NewManager))
       = map Error (recorded calls)
    /\ Z.of_nat (length (GetErrorsString (snd (runCalls K calls m))))
       = ErrorCount (snd (runCalls K calls m)).
Proof.
  intros K calls m. rewrite !GetErrorsString_map, !runCalls_errors.
  split; [apply map_app|]. split; [reflexivity|].
  unfold ErrorCount. rewrite runCalls_errors, length_map. reflexivity.
Qed.

(** X3.  With [AllowErrorMin <= AllowErrorMax], [AppendError] never
    returns the failure while the new count is below [AllowErrorMin], and
    a higher score never turns a nil answer into a failure: the ceiling
    grows with the score. *)
Theorem budget_floor_and_score_monotone :
  forall K,
    AllowErrorMin K <= AllowErrorMax K ->
    forall m e,
      (ErrorCount m + 1 < AllowErrorMin K ->
       fst (AppendError K (Some e) m) = None)
      /\ (forall m2,
            errors m2 = errors m ->
            score m <= score m2 ->
            fst (AppendError K (Some e) m) = None ->
            fst (AppendError K (Some e) m2) = None).
Proof.
  intros K Hmm m e.
  assert (Hfst : forall x,
             fst (AppendError K (Some e) x) = None
             <-> ErrorCount x + 1 < errorLimitOf K x).
  { intros x. rewrite AppendError_some. cbv zeta.
    rewrite ErrorCount_append.
    destruct (Z.leb_spec (errorLimitOf K x) (ErrorCount x + 1)); simpl;
      split; intros; try discriminate; try lia; reflexivity. }
  split.
  - intros Hlow. apply Hfst.
    rewrite (errorLimitOf_clamp K m Hmm). unfold clamp. lia.
  - intros m2 He Hs Hnil. apply Hfst. apply Hfst in Hnil.
    assert (Hec : ErrorCount m2 = ErrorCount m)
      by (unfold ErrorCount; rewrite He; reflexivity).
    rewrite Hec.
    rewrite (errorLimitOf_clamp K m Hmm) in Hnil.
    rewrite (errorLimitOf_clamp K m2 Hmm).
    assert (Hq : Z.quot (GetScore m) 20 <= Z.quot (GetScore m2) 20)
      by (apply Z.quot_le_mono; [lia|exact Hs]).
    unfold clamp in *. lia.
Qed.

Lemma budget_floor_and_score_monotone_witness :
  fst (AppendError exampleConsts (Some someError) NewManager) = None.
Proof.
  apply (proj1 (budget_floor_and_score_monotone exampleConsts
                  ltac:(simpl; lia) NewManager someError)).
  simpl. lia.
Defined.

Lemma AppendError_below :
  forall K e x,
    ErrorCount x + 1 < errorLimitOf K x ->
    AppendError K (Some e) x = (None, set_errors x (errors x ++ [e])).
Proof.
  intros K e x H. rewrite AppendError_some. cbv zeta.
  rewrite ErrorCount_append.
  destruct (Z.leb_spec (errorLimitOf K x) (ErrorCount x + 1));
    [lia|reflexivity].
Qed.

(** X4.  The failure that [AppendError] returns is not sticky, only the
    flag is: after a call has voided the run, a call made once the score
    has lifted the ceiling above the count returns nil, the flag stays
    set and [TotalScore] stays 0. *)
Theorem failure_return_not_sticky :
  forall K e e' delta m,
    fst (AppendError K (Some e) m) = Some ErrOverLimit ->
    ErrorCount m + 2
    < errorLimitOf K (AddScore delta (snd (AppendError K (Some e) m))) ->
    let m2 := snd (AppendError K (Some e')
                     (AddScore delta (snd (AppendError K (Some e) m)))) in
    fst (AppendError K (Some e')
           (AddScore delta (snd (AppendError K (Some e) m)))) = None
    /\ overError m2 = true
    /\ ErrorCount m2 = ErrorCount m + 2
    /\ TotalScore K m2 = 0.
Proof.
  intros K e e' delta m Hfail Hlimit m2.
  set (m1 := AddScore delta (snd (AppendError K (Some e) m))) in *.
  assert (Hov0 : overError (snd (AppendError K (Some e) m)) = true).
  { revert Hfail. rewrite AppendError_some. cbv zeta.
    destruct (_ <=? _); [reflexivity|discriminate]. }
  assert (Hov1 : overError m1 = true) by exact Hov0.
  assert (Hec1 : ErrorCount m1 = ErrorCount m + 1).
  { change (ErrorCount m1)
      with (Z.of_nat (length (errors (snd (AppendError K (Some e) m))))).
    rewrite AppendError_errors, length_app. unfold ErrorCount. simpl. lia. }
  assert (Hstep : AppendError K (Some e') m1
                  = (None, set_errors m1 (errors m1 ++ [e']))).
  { apply AppendError_below. rewrite Hec1. lia. }
  unfold m2. rewrite Hstep. cbn [fst snd].
  split; [reflexivity|]. split; [exact Hov1|].
  split.
  - rewrite ErrorCount_append, Hec1. lia.
  - unfold TotalScore.
    change (overError (set_errors m1 (errors m1 ++ [e']))) with (overError m1).
    rewrite Hov1. reflexivity.
Qed.

Lemma failure_return_not_sticky_witness :
  let m := snd (runCalls exampleConsts fiveErrors NewManager) in
  fst (AppendError exampleConsts (Some someError)
         (AddScore 8000 (snd (AppendError exampleConsts (Some someError) m))))
  = None
  /\ TotalScore exampleConsts
       (snd (AppendError exampleConsts (Some someError)
               (AddScore 8000
                  (snd (AppendError exampleConsts (Some someError) m)))))
     = 0.
Proof.
  intros m.
  destruct (failure_return_not_sticky exampleConsts someError someError
              8000 m) as [H1 [_ [_ H4]]].
  - reflexivity.
  - vm_compute. reflexivity.
  - split; [exact H1|exact H4].
Defined.

(** ** The registry: lookup, admission, purge and close *)

Lemma findInvestorLoop_some :
  forall l b i,
    findInvestorLoop l b = Some i ->
    exists pre post,
      l = pre ++ i :: post
      /\ BankID i = b
      /\ (forall j, In j pre -> BankID j <> b).
Proof.
  induction l as [|h l IH]; intros b i H; simpl in H; [discriminate|].
  destruct (String.eqb_spec (BankID h) b) as [Heq|Hne].
  - inversion H; subst. exists [], l. repeat split. intros j [].
  - destruct (IH b i H) as [pre [post [Hl [Hb Hpre]]]].
    exists (h :: pre), post. subst l. repeat split; [exact Hb|].
    intros j [<-|Hj]; [exact Hne|apply Hpre; exact Hj].
Qed.

Lemma findInvestorLoop_none :
  forall l b,
    findInvestorLoop l b = None <-> (forall j, In j l -> BankID j <> b).
Proof.
  induction l as [|h l IH]; intros b; simpl.
  - split; [intros _ j []|reflexivity].
  - destruct (String.eqb_spec (BankID h) b) as [Heq|Hne].
    + split; [discriminate|]. intros H. exfalso.
      apply (H h); [left; reflexivity|exact Heq].
    + rewrite IH. split.
      * intros H j [<-|Hj]; [exact Hne|apply H; exact Hj].
      * intros H j Hj. apply H. right. exact Hj.
Qed.

Lemma findInvestorLoop_app :
  forall l1 l2 b,
    findInvestorLoop (l1 ++ l2) b
    = match findInvestorLoop l1 b with
      | Some i => Some i
      | None => findInvestorLoop l2 b
      end.
Proof.
  induction l1 as [|h l1 IH]; intros l2 b; simpl; [reflexivity|].
  destruct (String.eqb (BankID h) b); [reflexivity|apply IH].
Qed.

(** X5.  [FindInvestor] returns the first registered investor, in
    admission order, whose bank identity is the one asked for, and nil
    exactly when no registered investor has it. *)
Theorem FindInvestor_first_match :
  forall bankID m,
    (forall i,
        FindInvestor bankID m = Some i ->
        exists pre post,
          investors m = pre ++ i :: post
          /\ BankID i = bankID
          /\ (forall j, In j pre -> BankID j <> bankID))
    /\ (FindInvestor bankID m = None
        <-> forall j, In j (investors m) -> BankID j <> bankID).
Proof.
  intros bankID m. split.
  - intros i H. apply findInvestorLoop_some. exact H.
  - apply findInvestorLoop_none.
Qed.

(** X6.  After [AddInvestor(i)] a lookup of any other bank identity gives
    what it gave before, an identity that was already found is still
    answered by the older investor, and [i] is found under its own
    identity when no registered investor had it. *)
Theorem AddInvestor_then_FindInvestor :
  forall i m,
    (forall b, b <> BankID i ->
               FindInvestor b (AddInvestor i m) = FindInvestor b m)
    /\ (forall b j, FindInvestor b m = Some j ->
                    FindInvestor b (AddInvestor i m) = Some j)
    /\ ((forall j, In j (investors m) -> BankID j <> BankID i) ->
        FindInvestor (BankID i) (AddInvestor i m) = Some i)
    /\ ActiveInvestors (AddInvestor i m) = ActiveInvestors m + 1.
Proof.
  intros i m. unfold FindInvestor, ActiveInvestors. simpl.
  split; [|split; [|split]].
  - intros b Hb. rewrite findInvestorLoop_app. simpl.
    destruct (String.eqb_spec (BankID i) b) as [Heq|_];
      [congruence|].
    destruct (findInvestorLoop (investors m) b); reflexivity.
  - intros b j H. rewrite findInvestorLoop_app, H. reflexivity.
  - intros Hnew. rewrite findInvestorLoop_app.
    rewrite (proj2 (findInvestorLoop_none (investors m) (BankID i)) Hnew).
    simpl. rewrite String.eqb_refl. reflexivity.
  - rewrite length_app. simpl. lia.
Qed.

Lemma AddInvestor_then_FindInvestor_witness :
  FindInvestor "bank0"%string (AddInvestor idleInvestor NewManager)
  = Some idleInvestor.
Proof.
  apply (proj1 (proj2 (proj2
           (AddInvestor_then_FindInvestor idleInvestor NewManager)))).
  intros j [].
Defined.

Lemma findInvestorLoop_filter :
  forall l b i,
    findInvestorLoop l b = Some i ->
    IsRetired i = false ->
    findInvestorLoop (filter notRetired l) b = Some i.
Proof.
  induction l as [|h l IH]; intros b i H Hr; simpl in *; [discriminate|].
  destruct (String.eqb (BankID h) b) eqn:Heq.
  - inversion H; subst. unfold notRetired at 1. rewrite Hr. simpl.
    rewrite Heq. reflexivity.
  - destruct (notRetired h); simpl; [rewrite Heq|]; apply IH; assumption.
Qed.

(** X7.  After [PurgeInvestor] a lookup never returns a retired investor;
    an investor that was found and is not retired is still the one found;
    an identity held only by retired investors is no longer found. *)
Theorem FindInvestor_after_purge :
  forall bankID m,
    (forall i,
        FindInvestor bankID (PurgeInvestor m) = Some i ->
        In i (investors m) /\ IsRetired i = false /\ BankID i = bankID)
    /\ (forall i,
          FindInvestor bankID m = Some i -> IsRetired i = false ->
          FindInvestor bankID (PurgeInvestor m) = Some i)
    /\ ((forall j, In j (investors m) -> BankID j = bankID ->
                   IsRetired j = true) ->
        FindInvestor bankID (PurgeInvestor m) = None).
Proof.
  intros bankID m. unfold FindInvestor.
  rewrite PurgeInvestor_investors.
  split; [|split].
  - intros i H.
    destruct (findInvestorLoop_some _ _ _ H) as [pre [post [Hl [Hb _]]]].
    assert (Hin : In i (filter notRetired (investors m))).
    { rewrite Hl. apply in_or_app. right. left. reflexivity. }
    apply filter_In in Hin. destruct Hin as [Hin Hn].
    unfold notRetired in Hn. apply negb_true_iff in Hn.
    repeat split; assumption.
  - intros i H Hr. apply findInvestorLoop_filter; assumption.
  - intros Hall. apply findInvestorLoop_none. intros j Hj Hb.
    apply filter_In in Hj. destruct Hj as [Hj Hn].
    unfold notRetired in Hn. rewrite (Hall j Hj Hb) in Hn. discriminate.
Qed.

Lemma Close_closed :
  forall m, Close m = set_closed m (closed m ++ investors m).
Proof.
  intros m. unfold Close.
  assert (H : forall l x,
             fold_left (fun m' i => set_closed m' (closed m' ++ [i])) l x
             = set_closed x (closed x ++ l)).
  { induction l as [|i l IH]; intros x; simpl.
    - rewrite app_nil_r. destruct x; reflexivity.
    - rewrite IH. simpl. rewrite <- app_assoc. reflexivity. }
  apply H.
Qed.

Lemma retired_partition :
  forall l : list Investor,
    Permutation (filter IsRetired l ++ filter notRetired l) l.
Proof.
  induction l as [|h l IH]; simpl; [constructor|].
  unfold notRetired at 1. destruct (IsRetired h); simpl.
  - constructor. exact IH.
  - apply Permutation_sym, Permutation_cons_app, Permutation_sym. exact IH.
Qed.

(** X8.  [Close] closes every registered investor once, in order, and
    leaves the registry as it is, so a second [Close] closes them all a
    second time; a purge followed by [Close] closes every investor of the
    registry exactly once. *)
Theorem Close_closes_registry :
  forall m,
    closed (Close m) = closed m ++ investors m
    /\ investors (Close m) = investors m
    /\ closed (Close (Close m)) = closed m ++ investors m ++ investors m
    /\ (exists l,
          closed (Close (PurgeInvestor m)) = closed m ++ l
          /\ Permutation l (investors m)).
Proof.
  intros m. rewrite !Close_closed. simpl.
  split; [reflexivity|]. split; [reflexivity|].
  split; [rewrite <- app_assoc; reflexivity|].
  exists (filter IsRetired (investors m) ++ filter notRetired (investors m)).
  split.
  - change (closed (PurgeInvestor m) ++ investors (PurgeInvestor m)
            = closed m ++ filter IsRetired (investors m)
              ++ filter notRetired (investors m)).
    rewrite PurgeInvestor_closed, PurgeInvestor_investors, <- app_assoc.
    reflexivity.
  - apply retired_partition.
Qed.

Lemma runAdmit_fields :
  forall i m,
    investors (runAdmit i m) = investors m ++ [i]
    /\ totalivst (runAdmit i m) = wrap64 (totalivst m + 1)
    /\ credited (runAdmit i m)
       = credited m ++ (if Credit i >? 0 then [(BankID i, Credit i)] else [])
    /\ closed (runAdmit i m) = closed m
    /\ ledger (runAdmit i m) = ledger m
    /\ level (runAdmit i m) = level m.
Proof.
  intros i m. unfold runAdmit.
  destruct (Credit i >? 0); simpl; rewrite ?app_nil_r; repeat split.
Qed.

(** X9.  Over any sequence of [AddInvestor], deferred admissions,
    [PurgeInvestor] and [Close] that admits fewer than 2^63 investors, the
    admitted total counts the admissions and is never below the number of
    active investors. *)
Theorem active_never_exceeds_total :
  forall calls m,
    0 <= totalivst m ->
    ActiveInvestors m <= AllInvestors m ->
    totalivst m + Z.of_nat (admissions calls) <= max_int64 ->
    AllInvestors (runRegistry calls m)
    = AllInvestors m + Z.of_nat (admissions calls)
    /\ ActiveInvestors (runRegistry calls m)
       <= AllInvestors (runRegistry calls m).
Proof.
  unfold AllInvestors, ActiveInvestors.
  induction calls as [|c calls IH]; intros m H0 Hle Hmax.
  - simpl. split; lia.
  - destruct c as [i|i| |]; cbn [runRegistry admissions] in *.
    + destruct (IH (AddInvestor i m)) as [H1 H2]; simpl.
      * rewrite wrap64_id; [lia|].
        unfold in_int64, min_int64, max_int64 in *. lia.
      * rewrite length_app, wrap64_id; [simpl; lia|].
        unfold in_int64, min_int64, max_int64 in *. lia.
      * rewrite wrap64_id; [lia|].
        unfold in_int64, min_int64, max_int64 in *. lia.
      * split; [|exact H2]. rewrite H1. simpl.
        rewrite wrap64_id; [lia|].
        unfold in_int64, min_int64, max_int64 in *. lia.
    + destruct (runAdmit_fields i m) as [Hi [Ht _]].
      assert (Hw : wrap64 (totalivst m + 1) = totalivst m + 1).
      { apply wrap64_id.
        unfold in_int64, min_int64, max_int64 in *. lia. }
      destruct (IH (runAdmit i m)) as [H1 H2].
      * rewrite Ht, Hw. lia.
      * rewrite Hi, Ht, Hw, length_app. simpl. lia.
      * rewrite Ht, Hw. lia.
      * split; [|exact H2]. rewrite H1, Ht, Hw. lia.
    + destruct (IH (PurgeInvestor m)) as [H1 H2]; try assumption.
      * rewrite PurgeInvestor_investors.
        pose proof (filter_length_le notRetired (investors m)).
        change (totalivst (PurgeInvestor m)) with (totalivst m). lia.
      * split; assumption.
    + rewrite Close_closed.
      destruct (IH (set_closed m (closed m ++ investors m))) as [H1 H2];
        try assumption.
      split; assumption.
Qed.

Lemma active_never_exceeds_total_witness :
  ActiveInvestors
    (runRegistry [CallAddInvestor idleInvestor; CallPurgeInvestor;
                  CallRunAdmit sharingInvestor]
                 NewManager)
  <= AllInvestors
       (runRegistry [CallAddInvestor idleInvestor; CallPurgeInvestor;
                     CallRunAdmit sharingInvestor]
                    NewManager).
Proof.
  apply (proj2 (active_never_exceeds_total
                  [CallAddInvestor idleInvestor; CallPurgeInvestor;
                   CallRunAdmit sharingInvestor]
                  NewManager
                  ltac:(simpl; lia)
                  ltac:(unfold ActiveInvestors, AllInvestors; simpl; lia)
                  ltac:(vm_compute; discriminate))).
Defined.

Lemma testInvestors_filter :
  forall m,
    testInvestors m
    = filter (fun i => IsSignin i && negb (IsRetired i)) (investors m).
Proof.
  intros m. unfold testInvestors.
  assert (H : forall l acc,
             fold_left (fun acc inv =>
                          if IsSignin inv && negb (IsRetired inv)
                          then acc ++ [inv] else acc) l acc
             = acc ++ filter (fun i => IsSignin i && negb (IsRetired i)) l).
  { induction l as [|i l IH]; intros acc; simpl.
    - rewrite app_nil_r. reflexivity.
    - rewrite IH. destruct (IsSignin i && negb (IsRetired i));
        [rewrite <- app_assoc|]; reflexivity. }
  apply H.
Qed.

(** X10.  The users [PostTest] hands to the validator are the registered
    investors that are signed in and not retired, in registry order; a
    purge before the call does not change them. *)
Theorem PostTest_users :
  forall m,
    (forall i, In i (testInvestors m)
               <-> In i (investors m)
                   /\ IsSignin i = true /\ IsRetired i = false)
    /\ subsequence (testInvestors m) (investors m)
    /\ testInvestors (PurgeInvestor m) = testInvestors m
    /\ testInvestors m = filter IsSignin (investors (PurgeInvestor m)).
Proof.
  intros m. rewrite !testInvestors_filter, PurgeInvestor_investors.
  split; [|split; [|split]].
  - intros i. rewrite filter_In, andb_true_iff, negb_true_iff. tauto.
  - apply filter_subsequence.
  - induction (investors m) as [|i l IH]; simpl; [reflexivity|].
    unfold notRetired at 1.
    destruct (IsRetired i) eqn:Hr; simpl.
    + rewrite andb_false_r. exact IH.
    + rewrite Hr. simpl. rewrite IH. reflexivity.
  - induction (investors m) as [|i l IH]; simpl; [reflexivity|].
    unfold notRetired at 1.
    destruct (IsRetired i); simpl.
    + rewrite andb_false_r. exact IH.
    + rewrite andb_true_r, IH. reflexivity.
Qed.

Lemma runAdmits_fields :
  forall invs m,
    min_int64 <= totalivst m ->
    totalivst m + Z.of_nat (length invs) <= max_int64 ->
    investors (runAdmits invs m) = investors m ++ invs
    /\ totalivst (runAdmits invs m) = totalivst m + Z.of_nat (length invs)
    /\ credited (runAdmits invs m) = credited m ++ creditGrants invs
    /\ closed (runAdmits invs m) = closed m
    /\ ledger (runAdmits invs m) = ledger m
    /\ level (runAdmits invs m) = level m.
Proof.
  unfold runAdmits.
  induction invs as [|i invs IH]; intros m Hlo Hhi.
  - simpl. rewrite !app_nil_r, Z.add_0_r. repeat split.
  - cbn [fold_left].
    destruct (runAdmit_fields i m) as [Hi [Ht [Hc [Hcl [Hl Hlv]]]]].
    assert (Hw : wrap64 (totalivst m + 1) = totalivst m + 1).
    { apply wrap64_id. unfold in_int64. simpl length in Hhi. lia. }
    simpl length in Hhi.
    destruct (IH (runAdmit i m)) as [H1 [H2 [H3 [H4 [H5 H6]]]]].
    { rewrite Ht, Hw. lia. }
    { rewrite Ht, Hw. lia. }
    rewrite H1, H2, H3, H4, H5, H6, Hi, Ht, Hw, Hc, Hcl, Hl, Hlv.
    unfold creditGrants. simpl.
    destruct (Credit i >? 0); simpl; rewrite <- !app_assoc; simpl;
      repeat split; lia.
Qed.

(** X11.  Running the deferred admissions of a list of investors, as long
    as the counter does not overflow, registers them in order after the
    investors already there, raises the admitted total by their number,
    grants at the bank exactly the positive credits, in order, and
    touches neither the score, the errors nor the level. *)
Theorem deferred_admissions_register :
  forall invs m,
    min_int64 <= totalivst m ->
    totalivst m + Z.of_nat (length invs) <= max_int64 ->
    investors (runAdmits invs m) = investors m ++ invs
    /\ AllInvestors (runAdmits invs m)
       = AllInvestors m + Z.of_nat (length invs)
    /\ credited (runAdmits invs m) = credited m ++ creditGrants invs
    /\ ledger (runAdmits invs m) = ledger m
    /\ level (runAdmits invs m) = level m.
Proof.
  intros invs m Hlo Hhi.
  destruct (runAdmits_fields invs m Hlo Hhi) as [H1 [H2 [H3 [_ [H5 H6]]]]].
  repeat split; assumption.
Qed.

(** The two admissions of P6, run: the buyer at index 1 is granted its
    credit of 5000000, the seller at index 0 nothing. *)
Lemma deferred_admissions_register_witness :
  let batch := flat_map admitted (admissionBatch exampleClients 0 2 10 5000) in
  investors (runAdmits batch p6State) = investors p6State ++ batch
  /\ credited (runAdmits batch p6State) = [("1"%string, 5000000)].
Proof.
  intros batch.
  destruct (deferred_admissions_register batch p6State) as [H1 [_ [H3 _]]].
  - vm_compute. discriminate.
  - vm_compute. discriminate.
  - split; [exact H1|exact H3].
Defined.

(** ** The tick: what [Next] writes and what it returns *)

Section TickFrames.

Variable K : Consts.
Variable E : Env.

Lemma addInvestorsLoop_frame :
  forall n i ua p tasks m,
    exists k,
      snd (addInvestorsLoop E n i ua p tasks m) = set_nclients m k.
Proof.
  induction n as [|n IH]; intros i ua p tasks m; simpl.
  - exists (nclients m). rewrite set_nclients_same. reflexivity.
  - destruct (clientAt E (nclients m)) as [c|e]; simpl.
    + destruct (IH (i + 1) ua p
                   (tasks ++ [TaskAdmit (newBatchInvestor c i ua p)])
                   (set_nclients m (S (nclients m)))) as [k Hk].
      exists k. rewrite Hk. reflexivity.
    + eexists. reflexivity.
Qed.

Lemma tradesLoop_frame :
  forall trades tasks c m,
    exists k, snd (tradesLoop K E trades tasks c m) = set_nclients m k.
Proof.
  induction trades as [|t trades IH]; intros tasks c m; simpl.
  - exists (nclients m). rewrite set_nclients_same. reflexivity.
  - destruct (addInvestorsLoop_frame (Z.to_nat (AddUsersOnShare K)) 0
                (Amount t) (Price t) tasks m) as [k Hk].
    unfold addInvestors.
    destruct (addInvestorsLoop E _ 0 (Amount t) (Price t) tasks m)
      as [[tasks1|e] m1]; simpl in Hk; subst m1.
    + destruct (IH tasks1 (add64 c 1) (set_nclients m k)) as [k' Hk'].
      exists k'. rewrite Hk'. reflexivity.
    + exists k. reflexivity.
Qed.

Lemma shareLoop_frame :
  forall invs acc m,
    exists k, snd (shareLoop K E invs acc m) = set_nclients m k.
Proof.
  induction invs as [|i invs IH]; intros [[tasks p] c] m; simpl.
  - exists (nclients m). rewrite set_nclients_same. reflexivity.
  - destruct (IsStartCompleted i); simpl; [|apply IH].
    destruct (IsRetired i); [apply IH|].
    match goal with
    | |- context [tradesLoop K E ?a ?b ?c ?d] =>
        destruct (tradesLoop_frame a b c d) as [k Hk];
        destruct (tradesLoop K E a b c d) as [[[tasks2 c2]|e] m1]
    end; simpl in Hk; subst m1.
    + destruct (IH (tasks2, LatestTradePrice i, c2) (set_nclients m k))
        as [k' Hk'].
      exists k'. rewrite Hk'. reflexivity.
    + exists k. reflexivity.
Qed.

Lemma naturalGrowth_core :
  forall fuel sc p tasks m r m',
    naturalGrowth K E fuel sc p tasks m = Some (r, m') -> core m' = core m.
Proof.
  induction fuel as [|fuel IH]; intros sc p tasks m r m' H; simpl in H;
    [discriminate|].
  destruct (sc <? _); [inversion H; reflexivity|].
  destruct (AllowErrorMin K <? ErrorCount m); [inversion H; reflexivity|].
  unfold addInvestors in H.
  match type of H with
  | context [addInvestorsLoop E ?a ?b ?c ?d ?e ?f] =>
      destruct (addInvestorsLoop_frame a b c d e f) as [k Hk];
      destruct (addInvestorsLoop E a b c d e f) as [[tasks1|e1] m1]
  end; simpl in Hk; subst m1.
  - apply IH in H. rewrite H. reflexivity.
  - inversion H; subst. reflexivity.
Qed.

(** *** Start tasks are only issued by the first loop *)

Lemma addInvestorsLoop_starts :
  forall n i ua p tasks m tasks' m',
    addInvestorsLoop E n i ua p tasks m = (Ok tasks', m') ->
    filter isStart tasks' = filter isStart tasks.
Proof.
  induction n as [|n IH]; intros i ua p tasks m tasks' m' H; simpl in H.
  - inversion H; reflexivity.
  - destruct (clientAt E (nclients m)) as [c|e]; [|discriminate].
    apply IH in H. rewrite H, filter_app. simpl. apply app_nil_r.
Qed.

Lemma tradesLoop_starts :
  forall trades tasks c m tasks' c' m',
    tradesLoop K E trades tasks c m = (Ok (tasks', c'), m') ->
    filter isStart tasks' = filter isStart tasks.
Proof.
  induction trades as [|t trades IH]; intros tasks c m tasks' c' m' H;
    simpl in H.
  - inversion H; reflexivity.
  - destruct (addInvestors E _ _ _ tasks m) as [[tasks1|e] m1] eqn:Ha;
      [|discriminate].
    apply IH in H. apply addInvestorsLoop_starts in Ha. congruence.
Qed.

Lemma shareLoop_result :
  forall invs tasks p c m tasks' p' c' m',
    shareLoop K E invs (tasks, p, c) m = (Ok (tasks', p', c'), m') ->
    filter isStart tasks' = filter isStart tasks
    /\ p' = lastPrice invs p.
Proof.
  induction invs as [|i invs IH]; intros tasks p c m tasks' p' c' m' H;
    simpl in H.
  - inversion H; subst. split; reflexivity.
  - simpl. unfold eligible.
    destruct (IsStartCompleted i); simpl in *; [|eapply IH; eauto].
    destruct (IsRetired i); simpl; [eapply IH; eauto|].
    match type of H with
    | context [tradesLoop K E ?a ?b ?c ?d] =>
        destruct (tradesLoop K E a b c d) as [[[tasks2 c2]|e] m1] eqn:Ht
    end; [|discriminate].
    apply IH in H. destruct H as [H1 H2].
    apply tradesLoop_starts in Ht.
    split; [|exact H2]. rewrite H1, Ht.
    destruct (NextTask i); [|reflexivity].
    rewrite filter_app. simpl. apply app_nil_r.
Qed.

Lemma naturalGrowth_starts :
  forall fuel sc p tasks m tasks' m',
    naturalGrowth K E fuel sc p tasks m = Some (Ok tasks', m') ->
    filter isStart tasks' = filter isStart tasks.
Proof.
  induction fuel as [|fuel IH]; intros sc p tasks m tasks' m' H; simpl in H;
    [discriminate|].
  destruct (sc <? _); [inversion H; reflexivity|].
  destruct (AllowErrorMin K <? ErrorCount m); [inversion H; reflexivity|].
  match type of H with
  | context [addInvestors E ?a ?b ?c ?d ?e] =>
      destruct (addInvestors E a b c d e) as [[tasks1|e1] m1] eqn:Ha
  end; [|discriminate].
  apply IH in H. apply addInvestorsLoop_starts in Ha. congruence.
Qed.

Lemma startTasks_starts :
  forall invs, filter isStart (startTasks invs) = startTasks invs.
Proof.
  intros invs. unfold startTasks.
  induction (firstn 2 (filter unstarted invs)) as [|i l IH]; simpl;
    [reflexivity|].
  rewrite IH. reflexivity.
Qed.

End TickFrames.

Lemma core_fields :
  forall m1 m2,
    core m1 = core m2 ->
    investors m1 = investors m2
    /\ score m1 = score m2
    /\ errors m1 = errors m2
    /\ totalivst m1 = totalivst m2
    /\ overError m1 = overError m2
    /\ closed m1 = closed m2
    /\ credited m1 = credited m2.
Proof.
  intros m1 m2 H. unfold core in H. inversion H. repeat split; assumption.
Qed.

(** X12.  Whatever it returns, [Next] writes the registry only by its
    purge: the investors left are the non-retired ones, the retired ones
    are closed, and neither the admitted total, the score, the errors,
    the voided flag nor the bank sees a change.  The investors a tick
    decides to add are admitted when its tasks run, not by the tick. *)
Theorem Next_only_purges :
  forall K E fuel m r m',
    Next K E fuel m = Some (r, m') ->
    investors m' = filter notRetired (investors m)
    /\ closed m' = closed m ++ filter IsRetired (investors m)
    /\ AllInvestors m' = AllInvestors m
    /\ credited m' = credited m
    /\ ledger m' = ledger m.
Proof.
  intros K E fuel m r m' H.
  assert (Hcore : core m' = core (PurgeInvestor m)).
  { unfold Next in H.
    destruct (ActiveInvestors (PurgeInvestor m) =? 0);
      [inversion H; reflexivity|].
    match type of H with
    | context [shareLoop K E ?a ?b ?c] =>
        destruct (shareLoop_frame K E a b c) as [k Hk];
        destruct (shareLoop K E a b c) as [[[[tasks1 p] c0]|e] m1]
    end; simpl in Hk; subst m1.
    - apply naturalGrowth_core in H. rewrite H.
      destruct (c0 >? 0); reflexivity.
    - inversion H; subst. reflexivity. }
  destruct (core_fields _ _ Hcore) as [H1 [H2 [H3 [H4 [H5 [H6 H7]]]]]].
  rewrite PurgeInvestor_investors in H1. rewrite PurgeInvestor_closed in H6.
  unfold AllInvestors, ledger. rewrite H2, H3, H5.
  repeat split; assumption.
Qed.

Lemma Next_only_purges_witness :
  investors (set_logs (set_nclients p6State 2) [LogShared 1])
  = filter notRetired (investors p6State)
  /\ AllInvestors (set_logs (set_nclients p6State 2) [LogShared 1])
     = AllInvestors p6State.
Proof.
  assert (H : exists r,
             Next exampleConsts exampleEnv 57 p6State
             = Some (r, set_logs (set_nclients p6State 2) [LogShared 1])).
  { eexists. vm_compute. reflexivity. }
  destruct H as [r H].
  destruct (Next_only_purges exampleConsts exampleEnv 57 p6State r _ H)
    as [H1 [_ [H3 _]]].
  split; [exact H1|exact H3].
Defined.

Lemma In_firstn :
  forall (A : Type) (n : nat) (l : list A) (x : A),
    In x (firstn n l) -> In x l.
Proof.
  intros A. induction n as [|n IH]; intros l x H; [contradiction|].
  destruct l as [|y l]; [contradiction|].
  destruct H as [->|H]; [left; reflexivity|right; apply (IH l x H)].
Qed.

(** X13.  A tick that returns a batch starts at most two investors: its
    start tasks are those of the first two investors, in registry order,
    that are left after the purge and not yet started; no other loop of
    [Next] issues a start task. *)
Theorem tick_starts_at_most_two :
  forall K E fuel m tasks m',
    Next K E fuel m = Some (Ok tasks, m') ->
    filter isStart tasks = startTasks (investors (PurgeInvestor m))
    /\ (length (filter isStart tasks) <= 2)%nat
    /\ (forall i, In (TaskStart i) tasks ->
                  In i (investors (PurgeInvestor m)) /\ IsStarted i = false).
Proof.
  intros K E fuel m tasks m' H.
  assert (Hs : filter isStart tasks
               = startTasks (investors (PurgeInvestor m))).
  { unfold Next in H.
    destruct (ActiveInvestors (PurgeInvestor m) =? 0); [discriminate|].
    rewrite startLoop_closed in H by lia. rewrite app_nil_l in H.
    change (Z.to_nat 2) with 2%nat in H.
    fold (startTasks (investors (PurgeInvestor m))) in H.
    match type of H with
    | context [shareLoop K E ?a ?b ?c] =>
        destruct (shareLoop K E a b c) as [[[[tasks1 p] c0]|e] m1] eqn:Hsh
    end; [|discriminate].
    apply shareLoop_result in Hsh. destruct Hsh as [Hsh _].
    apply naturalGrowth_starts in H.
    rewrite H, Hsh. apply startTasks_starts. }
  split; [exact Hs|]. split.
  - rewrite Hs. unfold startTasks. rewrite length_map.
    apply firstn_le_length.
  - intros i Hin.
    assert (Hf : In (TaskStart i) (filter isStart tasks))
      by (apply filter_In; split; [exact Hin|reflexivity]).
    rewrite Hs in Hf. unfold startTasks in Hf.
    apply in_map_iff in Hf. destruct Hf as [j [Hj Hin2]].
    inversion Hj; subst j.
    apply In_firstn in Hin2. apply filter_In in Hin2.
    destruct Hin2 as [Hin2 Hu]. split; [exact Hin2|].
    unfold unstarted in Hu. apply negb_true_iff in Hu. exact Hu.
Qed.

Lemma tick_starts_at_most_two_witness :
  exists tasks m',
    Next exampleConsts exampleEnv 57 threeNewState = Some (Ok tasks, m')
    /\ (length (filter isStart tasks) <= 2)%nat.
Proof.
  assert (H : exists tasks m',
             Next exampleConsts exampleEnv 57 threeNewState
             = Some (Ok tasks, m')).
  { eexists. eexists. vm_compute. reflexivity. }
  destruct H as [tasks [m' H]].
  exists tasks, m'. split; [exact H|].
  apply (proj1 (proj2 (tick_starts_at_most_two exampleConsts exampleEnv 57
                         threeNewState tasks m' H))).
Defined.

Lemma lastOf_cons :
  forall (A : Type) (x : A) (l : list A),
    lastOf (x :: l) = match lastOf l with
                      | Some y => Some y
                      | None => Some x
                      end.
Proof.
  intros A x l. unfold lastOf. simpl. destruct (rev l); reflexivity.
Qed.

Lemma lastPrice_last :
  forall invs d,
    lastPrice invs d = match lastOf (filter eligible invs) with
                       | Some i => LatestTradePrice i
                       | None => d
                       end.
Proof.
  induction invs as [|i invs IH]; intros d; simpl; [reflexivity|].
  rewrite IH. destruct (eligible i); [|reflexivity].
  rewrite lastOf_cons. destruct (lastOf (filter eligible invs)); reflexivity.
Qed.

(** X14.  The price handed to natural growth is the latest trade price
    reported by the last investor of the registry that completed its
    start and is not retired, whether or not it shared a trade, and 5000
    when there is no such investor. *)
Theorem natural_price_is_last_eligible :
  forall K E cl,
    clientsAre E cl ->
    (forall invs tasks p c m tasks' p' c' m',
        shareLoop K E invs (tasks, p, c) m = (Ok (tasks', p', c'), m') ->
        p' = match lastOf (filter eligible invs) with
             | Some i => LatestTradePrice i
             | None => p
             end)
    /\ (forall fuel m,
          investors (PurgeInvestor m) <> [] ->
          growthBounded K m ->
          (57 <= fuel)%nat ->
          let survivors := investors (PurgeInvestor m) in
          exists n m',
            Next K E fuel m
            = Some (Ok (startTasks survivors
                        ++ shareTasks cl (nclients m)
                             (Z.to_nat (AddUsersOnShare K)) survivors
                        ++ naturalTasks cl
                             (nclients m
                              + Z.to_nat (AddUsersOnShare K)
                                * sharedCount survivors)
                             (Z.to_nat (AddUsersOnNatural K)) (level m) n
                             (naturalPrice survivors)),
                    m')).
Proof.
  intros K E cl Hcl. split.
  - intros invs tasks p c m tasks' p' c' m' H.
    apply shareLoop_result in H. destruct H as [_ H].
    rewrite H. apply lastPrice_last.
  - intros fuel m Hne Hb Hf survivors.
    destruct (Next_returns K E cl Hcl fuel m Hne Hb Hf)
      as [n [m' [Hrun _]]].
    exists n, m'. rewrite Hrun. unfold naturalPrice.
    rewrite lastPrice_last. reflexivity.
Qed.

Lemma natural_price_is_last_eligible_witness :
  exists tasks' c' m',
    shareLoop exampleConsts exampleEnv [idleInvestor; pricedInvestor]
              ([], 5000, 0) NewManager
    = (Ok (tasks', 5123, c'), m').
Proof.
  assert (H : exists tasks' p' c' m',
             shareLoop exampleConsts exampleEnv [idleInvestor; pricedInvestor]
                       ([], 5000, 0) NewManager
             = (Ok (tasks', p', c'), m')).
  { eexists. eexists. eexists. eexists. vm_compute. reflexivity. }
  destruct H as [tasks' [p' [c' [m' H]]]].
  pose proof (proj1 (natural_price_is_last_eligible exampleConsts exampleEnv
                       exampleClients exampleEnv_clients)
                    _ _ _ _ _ _ _ _ _ H) as Hp.
  exists tasks', c', m'. rewrite H, Hp. reflexivity.
Defined.



(** ** Natural growth below the overflow, and when a client fails *)

Lemma naturalTasks_countAdmit :
  forall cl n k size lvl p,
    countAdmit (naturalTasks cl k size lvl n p) = (size * n)%nat.
Proof.
  intros cl. induction n as [|n IH]; intros k size lvl p; simpl; [lia|].
  rewrite countAdmit_app, IH. unfold admissionBatch.
  rewrite admissionBatchFrom_countAdmit. lia.
Qed.

Lemma startTasks_countAdmit :
  forall invs, countAdmit (startTasks invs) = O.
Proof.
  intros invs. unfold startTasks.
  induction (firstn 2 (filter unstarted invs)) as [|i l IH]; simpl;
    [reflexivity|exact IH].
Qed.

Lemma Next_to_growth :
  forall K E cl,
    clientsAre E cl ->
    forall fuel m,
      investors (PurgeInvestor m) <> [] ->
      let survivors := investors (PurgeInvestor m) in
      let shareSize := Z.to_nat (AddUsersOnShare K) in
      exists m2,
        Next K E fuel m
        = naturalGrowth K E fuel (score m) (lastPrice survivors 5000)
            (startTasks survivors
             ++ shareTasks cl (nclients m) shareSize survivors)
            m2
        /\ level m2 = level m
        /\ score m2 = score m
        /\ errors m2 = errors m
        /\ investors m2 = survivors
        /\ nclients m2 = (nclients m + shareSize * sharedCount survivors)%nat.
Proof.
  intros K E cl Hcl fuel m Hne survivors shareSize.
  unfold Next.
  destruct (Z.eqb_spec (ActiveInvestors (PurgeInvestor m)) 0) as [H0|_].
  { unfold ActiveInvestors in H0.
    destruct (investors (PurgeInvestor m)); [congruence|simpl in H0; lia]. }
  rewrite startLoop_closed by lia.
  rewrite (shareLoop_ok K E cl Hcl). cbv beta iota.
  rewrite app_nil_l. change (Z.to_nat 2) with 2%nat.
  fold (startTasks (investors (PurgeInvestor m))).
  fold survivors. fold shareSize.
  change (nclients (PurgeInvestor m)) with (nclients m).
  set (m1 := set_nclients (PurgeInvestor m) _).
  set (c := bump (sharedCount survivors) 0).
  exists (if c >? 0 then Printf (LogShared c) m1 else m1).
  split.
  - destruct (c >? 0); reflexivity.
  - destruct (c >? 0); simpl; repeat split; reflexivity.
Qed.

(** X16.  While the client constructor does not fail, the error count is
    at most [AllowErrorMin], the level is at most 56 and the score is
    under [100 * 2^56], a tick with an investor left returns within 57
    passes of the growth loop; the level it leaves is the first one, from
    the level it found upwards, whose threshold [2^level * 100] the score
    has not reached, every threshold below it has been reached, and the
    batch holds [AddUsersOnNatural] admissions for each level gained
    besides [AddUsersOnShare] for each shared trade. *)
Theorem growth_stops_at_first_unreached_threshold :
  forall K E cl,
    clientsAre E cl ->
    forall fuel m,
      investors (PurgeInvestor m) <> [] ->
      0 <= level m <= 56 ->
      GetScore m < 100 * 2 ^ 56 ->
      ErrorCount m <= AllowErrorMin K ->
      (57 <= fuel)%nat ->
      exists n tasks m',
        Next K E fuel m = Some (Ok tasks, m')
        /\ GetLevel m' = GetLevel m + Z.of_nat n
        /\ GetScore m < 2 ^ GetLevel m' * 100
        /\ (forall l, GetLevel m <= l < GetLevel m' ->
                      2 ^ l * 100 <= GetScore m)
        /\ countAdmit tasks
           = (Z.to_nat (AddUsersOnShare K)
              * sharedCount (investors (PurgeInvestor m))
              + Z.to_nat (AddUsersOnNatural K) * n)%nat.
Proof.
  intros K E cl Hcl fuel m Hne Hl Hs Hec Hf.
  unfold GetScore, GetLevel in *.
  destruct (Next_to_growth K E cl Hcl fuel m Hne)
    as [m2 [Hrun [Hlv [Hsc [Her [_ Hnc]]]]]].
  destruct (naturalGrowth_closed K E cl Hcl (Z.to_nat (56 - level m)) fuel
              (score m)
              (lastPrice (investors (PurgeInvestor m)) 5000)
              (startTasks (investors (PurgeInvestor m))
               ++ shareTasks cl (nclients m) (Z.to_nat (AddUsersOnShare K))
                    (investors (PurgeInvestor m)))
              m2)
    as [n [_ [Hgrow [Hstop Hcross]]]]; try lia.
  { unfold ErrorCount in *. rewrite Her. exact Hec. }
  exists n. eexists. eexists.
  split; [rewrite Hrun; exact Hgrow|].
  unfold leveledUp. cbn [level set_nclients set_logs set_level].
  rewrite Hlv in *.
  split; [reflexivity|]. split; [exact Hstop|]. split; [exact Hcross|].
  rewrite !countAdmit_app, startTasks_countAdmit, shareTasks_countAdmit,
    naturalTasks_countAdmit.
  reflexivity.
Qed.

Lemma growth_stops_at_first_unreached_threshold_witness :
  exists n tasks m',
    Next exampleConsts exampleEnv 57 threeLevelsState = Some (Ok tasks, m')
    /\ GetLevel m' = Z.of_nat n
    /\ 400 < 2 ^ GetLevel m' * 100.
Proof.
  destruct (growth_stops_at_first_unreached_threshold
              exampleConsts exampleEnv exampleClients exampleEnv_clients
              57%nat threeLevelsState)
    as [n [tasks [m' [H1 [H2 [H3 _]]]]]].
  - discriminate.
  - vm_compute. split; discriminate.
  - vm_compute. reflexivity.
  - vm_compute. discriminate.
  - lia.
  - exists n, tasks, m'. split; [exact H1|]. split; [exact H2|exact H3].
Defined.

Lemma shareLoop_quiet :
  forall K E invs tasks p c m,
    (forall i, In i invs -> eligible i = true -> SharedTrades i = []) ->
    shareLoop K E invs (tasks, p, c) m
    = (Ok (tasks ++ flat_map workOf (filter eligible invs),
           lastPrice invs p, c), m).
Proof.
  intros K E. induction invs as [|i invs IH]; intros tasks p c m Hq; simpl.
  - rewrite app_nil_r. reflexivity.
  - assert (Hrest : forall i0, In i0 invs -> eligible i0 = true ->
                               SharedTrades i0 = [])
      by (intros; apply Hq; [right|]; assumption).
    pose proof (Hq i (or_introl eq_refl)) as Hi.
    unfold eligible in *.
    destruct (IsStartCompleted i); simpl in *; [|apply IH; exact Hrest].
    destruct (IsRetired i); simpl in *; [apply IH; exact Hrest|].
    rewrite (Hi eq_refl). simpl. rewrite IH by exact Hrest.
    unfold workOf. destruct (NextTask i); rewrite <- ?app_assoc; reflexivity.
Qed.

(** X17.  [Next] does not roll the level back: when a level-up is due and
    the client constructor fails on the first investor of its batch, the
    tick returns that error and no task, and the level stays raised by
    one. *)
Theorem failed_growth_keeps_level_up :
  forall K E fuel m e,
    investors (PurgeInvestor m) <> [] ->
    (forall i, In i (investors (PurgeInvestor m)) -> eligible i = true ->
               SharedTrades i = []) ->
    0 <= level m <= 56 ->
    2 ^ level m * 100 <= GetScore m ->
    ErrorCount m <= AllowErrorMin K ->
    1 <= AddUsersOnNatural K ->
    clientAt E (nclients m) = Err e ->
    (1 <= fuel)%nat ->
    exists m',
      Next K E fuel m = Some (Err e, m')
      /\ GetLevel m' = GetLevel m + 1
      /\ investors m' = investors (PurgeInvestor m).
Proof.
  intros K E fuel m e Hne Hq Hl Hs Hec Hn Hfail Hf.
  unfold GetScore, GetLevel in *. unfold Next.
  destruct (Z.eqb_spec (ActiveInvestors (PurgeInvestor m)) 0) as [H0|_].
  { unfold ActiveInvestors in H0.
    destruct (investors (PurgeInvestor m)); [congruence|simpl in H0; lia]. }
  rewrite shareLoop_quiet by exact Hq. cbv beta iota.
  change (0 >? 0) with false. cbv iota.
  destruct fuel as [|fuel]; [lia|].
  cbn [naturalGrowth].
  change (level (PurgeInvestor m)) with (level m).
  change (ErrorCount (PurgeInvestor m)) with (ErrorCount m).
  change (GetScore (PurgeInvestor m)) with (score m).
  rewrite nextScore_exact by lia.
  destruct (Z.ltb_spec (score m) (2 ^ level m * 100)); [lia|].
  destruct (Z.ltb_spec (AllowErrorMin K) (ErrorCount m)); [lia|].
  unfold addInvestors.
  destruct (Z.to_nat (AddUsersOnNatural K)) as [|n] eqn:Hnat; [lia|].
  cbn [addInvestorsLoop]. unfold newClient.
  change (nclients (Printf LogNatural
                      (set_level (PurgeInvestor m) (wrapU64 (level m + 1)))))
    with (nclients m).
  rewrite Hfail.
  eexists. split; [reflexivity|].
  cbn [level set_nclients Printf set_logs set_level].
  split; [|reflexivity].
  unfold wrapU64. rewrite Z.mod_small; lia.
Qed.

Lemma failed_growth_keeps_level_up_witness :
  exists m',
    Next exampleConsts failingEnv 1 p5State
    = Some (Err (ErrOther "base url parse Failed."%string), m')
    /\ GetLevel m' = 1.
Proof.
  destruct (failed_growth_keeps_level_up exampleConsts failingEnv 1 p5State
              (ErrOther "base url parse Failed."%string))
    as [m' [H1 [H2 _]]].
  - discriminate.
  - intros i [<-|[]] _. reflexivity.
  - vm_compute. split; discriminate.
  - vm_compute. discriminate.
  - vm_compute. discriminate.
  - vm_compute. discriminate.
  - reflexivity.
  - lia.
  - exists m'. split; [exact H1|exact H2].
Defined.

(** ** [Start]: the initial population *)

Section StartLoops.

Variable E : Env.
Variable cl : nat -> Client.

Lemma startDefaultLoop_run :
  forall n j tasks m,
    (forall i, (i < n)%nat ->
               clientAt E (nclients m + i) = Ok (cl (nclients m + i)%nat)) ->
    let defaults := defaultPopulationFrom cl (nclients m) j n in
    fst (startDefaultLoop E n (Z.of_nat j) tasks m)
    = Ok (tasks ++ map TaskStart defaults)
    /\ investors (snd (startDefaultLoop E n (Z.of_nat j) tasks m))
       = investors m ++ defaults
    /\ credited (snd (startDefaultLoop E n (Z.of_nat j) tasks m))
       = credited m ++ creditGrants defaults
    /\ nclients (snd (startDefaultLoop E n (Z.of_nat j) tasks m))
       = (nclients m + n)%nat.
Proof.
  induction n as [|n IH]; intros j tasks m Hok; simpl.
  - rewrite !app_nil_r, Nat.add_0_r. repeat split; reflexivity.
  - pose proof (Hok O ltac:(lia)) as H0. rewrite Nat.add_0_r in H0.
    rewrite H0.
    replace (Z.of_nat j + 1) with (Z.of_nat (S j)) by lia.
    set (inv := newDefaultInvestor (cl (nclients m)) (Z.of_nat j)).
    set (m3 := AddInvestor inv _).
    assert (Hm3 : nclients m3 = S (nclients m)
                  /\ investors m3 = investors m ++ [inv]
                  /\ credited m3
                     = credited m
                       ++ (if Credit inv >? 0
                           then [(BankID inv, Credit inv)] else [])).
    { unfold m3. destruct (Credit inv >? 0); simpl; rewrite ?app_nil_r;
        repeat split; reflexivity. }
    destruct Hm3 as [Hn [Hi Hc]].
    destruct (IH (S j) (tasks ++ [TaskStart inv]) m3) as [H1 [H2 [H3 H4]]].
    { intros i Hlt. rewrite Hn.
      replace (S (nclients m) + i)%nat with (nclients m + S i)%nat by lia.
      apply Hok. lia. }
    rewrite H1, H2, H3, H4, Hn, Hi, Hc, <- !app_assoc.
    unfold creditGrants. simpl. fold inv.
    destruct (Credit inv >? 0); simpl; repeat split; try reflexivity; lia.
Qed.

Lemma startDefaultLoop_fails :
  forall k n j tasks m e,
    (k < n)%nat ->
    (forall i, (i < k)%nat ->
               clientAt E (nclients m + i) = Ok (cl (nclients m + i)%nat)) ->
    clientAt E (nclients m + k) = Err e ->
    let built := defaultPopulationFrom cl (nclients m) j k in
    fst (startDefaultLoop E n (Z.of_nat j) tasks m) = Err e
    /\ investors (snd (startDefaultLoop E n (Z.of_nat j) tasks m))
       = investors m ++ built
    /\ credited (snd (startDefaultLoop E n (Z.of_nat j) tasks m))
       = credited m ++ creditGrants built.
Proof.
  induction k as [|k IH]; intros n j tasks m e Hlt Hok Hfail;
    (destruct n as [|n]; [lia|]); simpl.
  - rewrite Nat.add_0_r in Hfail. rewrite Hfail. simpl.
    rewrite !app_nil_r. repeat split; reflexivity.
  - pose proof (Hok O ltac:(lia)) as H0. rewrite Nat.add_0_r in H0.
    rewrite H0.
    replace (Z.of_nat j + 1) with (Z.of_nat (S j)) by lia.
    set (inv := newDefaultInvestor (cl (nclients m)) (Z.of_nat j)).
    set (m3 := AddInvestor inv _).
    assert (Hm3 : nclients m3 = S (nclients m)
                  /\ investors m3 = investors m ++ [inv]
                  /\ credited m3
                     = credited m
                       ++ (if Credit inv >? 0
                           then [(BankID inv, Credit inv)] else [])).
    { unfold m3. destruct (Credit inv >? 0); simpl; rewrite ?app_nil_r;
        repeat split; reflexivity. }
    destruct Hm3 as [Hn [Hi Hc]].
    destruct (IH n (S j) (tasks ++ [TaskStart inv]) m3 e) as [H1 [H2 H3]].
    { lia. }
    { intros i Hi'. rewrite Hn.
      replace (S (nclients m) + i)%nat with (nclients m + S i)%nat by lia.
      apply Hok. lia. }
    { rewrite Hn.
      replace (S (nclients m) + k)%nat with (nclients m + S k)%nat by lia.
      exact Hfail. }
    rewrite H1, H2, H3, Hn, Hi, Hc, <- !app_assoc.
    unfold creditGrants. simpl. fold inv.
    destruct (Credit inv >? 0); simpl; repeat split; reflexivity.
Qed.

Variable bc : string -> Client.
Hypothesis brute_ok :
  forall a, In a accounts -> NewClient E a bruteName brutePassword = inl (bc a).

Lemma skipn_nth :
  forall (A : Type) (l : list A) (i : nat) (a : A),
    nth_error l i = Some a -> skipn i l = a :: skipn (S i) l.
Proof.
  intros A. induction l as [|x l IH]; intros i a H.
  - destruct i; discriminate.
  - destruct i as [|i]; simpl in *.
    + inversion H; reflexivity.
    + apply IH. exact H.
Qed.

Lemma startBruteLoop_run :
  forall n i tasks m,
    (i + n <= length accounts)%nat ->
    let brutes :=
      map (fun a => NewBruteForceInvestor (bc a)) (firstn n (skipn i accounts))
    in
    exists m',
      startBruteLoop E n i tasks m = Some (Ok (tasks ++ map TaskStart brutes), m')
      /\ investors m' = investors m ++ brutes
      /\ credited m' = credited m
      /\ nclients m' = nclients m.
Proof.
  induction n as [|n IH]; intros i tasks m Hle; simpl.
  - exists m. rewrite !app_nil_r. repeat split; reflexivity.
  - destruct (nth_error accounts i) as [a|] eqn:Hnth.
    2:{ apply nth_error_None in Hnth. lia. }
    rewrite (brute_ok a (nth_error_In _ _ Hnth)). simpl.
    rewrite (skipn_nth _ _ _ _ Hnth). simpl.
    destruct (IH (S i) (tasks ++ [TaskStart (NewBruteForceInvestor (bc a))])
                 (AddInvestor (NewBruteForceInvestor (bc a)) m))
      as [m' [H1 [H2 [H3 H4]]]]; [lia|].
    exists m'. rewrite H1, H2, H3, H4. simpl. rewrite <- !app_assoc.
    repeat split; reflexivity.
Qed.

Lemma startBruteLoop_panics :
  forall n i tasks m,
    (i <= length accounts)%nat ->
    (length accounts < i + n)%nat ->
    startBruteLoop E n i tasks m = None.
Proof.
  induction n as [|n IH]; intros i tasks m Hi Hgt; [lia|]. simpl.
  destruct (nth_error accounts i) as [a|] eqn:Hnth; [|reflexivity].
  rewrite (brute_ok a (nth_error_In _ _ Hnth)). simpl.
  assert (Hlt : (i < length accounts)%nat)
    by (apply nth_error_Some; congruence).
  apply IH; lia.
Qed.

End StartLoops.

Lemma creditGrants_default :
  forall cl n k j,
    Forall (fun g => snd g = 100000)
           (creditGrants (defaultPopulationFrom cl k j n)).
Proof.
  intros cl. induction n as [|n IH]; intros k j; simpl; [constructor|].
  unfold creditGrants. simpl.
  destruct (newDefaultInvestor_fields (cl k) j) as [_ [_ [_ [Hodd Heven]]]].
  destruct (Nat.odd j) eqn:Ho.
  - destruct (Hodd eq_refl) as [Hc _]. rewrite Hc. simpl.
    constructor; [simpl; exact Hc|apply IH].
  - assert (He : Nat.even j = true) by (rewrite <- Nat.negb_odd, Ho; reflexivity).
    destruct (Heven He) as [Hc _]. rewrite Hc. simpl. apply IH.
Qed.

(** X18.  While no client constructor fails and [BruteForceWorkers] is at
    most 4, [Start] returns one start task per investor it built,
    [DefaultWorkers + BruteForceWorkers] in all, after registering them in
    that order behind the investors already there: the default ones
    first, then one brute-force investor for each of the first fixed
    accounts.  The bank is asked to grant 100000 to the default investors
    built with credit and nothing to anyone else. *)
Theorem Start_builds_population :
  forall K E cl bc,
    clientsAre E cl ->
    (forall a, In a accounts ->
               NewClient E a bruteName brutePassword = inl (bc a)) ->
    BruteForceWorkers K <= 4 ->
    forall m,
      let defaults :=
        defaultPopulationFrom cl (nclients m) 0
                              (Z.to_nat (DefaultWorkers K)) in
      let brutes :=
        map (fun a => NewBruteForceInvestor (bc a))
            (firstn (Z.to_nat (BruteForceWorkers K)) accounts) in
      exists m',
        Start K E m = Some (Ok (map TaskStart (defaults ++ brutes)), m')
        /\ investors m' = investors m ++ defaults ++ brutes
        /\ length (defaults ++ brutes)
           = (Z.to_nat (DefaultWorkers K)
              + Z.to_nat (BruteForceWorkers K))%nat
        /\ credited m' = credited m ++ creditGrants defaults
        /\ Forall (fun g => snd g = 100000) (creditGrants defaults).
Proof.
  intros K E cl bc Hcl Hbc Hb m defaults brutes.
  unfold Start.
  destruct (startDefaultLoop_run E cl (Z.to_nat (DefaultWorkers K)) O [] m)
    as [H1 [H2 [H3 H4]]].
  { intros i _. apply Hcl. }
  fold defaults in H1, H2, H3.
  change (Z.of_nat 0) with 0 in *.
  destruct (startDefaultLoop E (Z.to_nat (DefaultWorkers K)) 0 [] m)
    as [[tasks|e] m1]; simpl in H1, H2, H3, H4; [|discriminate].
  inversion H1; subst tasks.
  destruct (startBruteLoop_run E bc Hbc (Z.to_nat (BruteForceWorkers K)) O
              (map TaskStart defaults) m1) as [m' [G1 [G2 [G3 _]]]].
  { simpl. lia. }
  simpl skipn in *. fold brutes in G1, G2.
  exists m'. rewrite G1, G2, G3, H2, H3, map_app, <- app_assoc.
  split; [reflexivity|]. split; [reflexivity|].
  split.
  - rewrite length_app. unfold defaults, brutes.
    rewrite length_map, firstn_length_le by (simpl; lia).
    f_equal. clear. generalize (nclients m) O.
    induction (Z.to_nat (DefaultWorkers K)) as [|n IH]; intros k j; simpl;
      [reflexivity|]. rewrite IH. reflexivity.
  - split; [reflexivity|]. apply creditGrants_default.
Qed.

Lemma Start_builds_population_witness :
  exists tasks m',
    Start exampleConsts exampleEnv NewManager = Some (Ok tasks, m')
    /\ length tasks = 3%nat
    /\ credited m' = [("1"%string, 100000)].
Proof.
  destruct (Start_builds_population exampleConsts exampleEnv exampleClients
              (fun a => mkClient a bruteName brutePassword)
              exampleEnv_clients)
    with (m := NewManager) as [m' [H1 [_ [H3 [H4 _]]]]].
  - intros a _. reflexivity.
  - simpl. lia.
  - eexists. exists m'. split; [exact H1|].
    split; [rewrite length_map; exact H3|exact H4].
Defined.

(** X19.  [Start] indexes the four fixed accounts with the loop counter:
    when [BruteForceWorkers] exceeds 4 and no client constructor fails,
    the fifth pass indexes past the end and [Start] panics instead of
    returning. *)
Theorem Start_panics_past_four_accounts :
  forall K E cl bc,
    clientsAre E cl ->
    (forall a, In a accounts ->
               NewClient E a bruteName brutePassword = inl (bc a)) ->
    4 < BruteForceWorkers K ->
    forall m, Start K E m = None.
Proof.
  intros K E cl bc Hcl Hbc Hb m. unfold Start.
  destruct (startDefaultLoop_run E cl (Z.to_nat (DefaultWorkers K)) O [] m)
    as [H1 _].
  { intros i _. apply Hcl. }
  change (Z.of_nat 0) with 0 in *.
  destruct (startDefaultLoop E (Z.to_nat (DefaultWorkers K)) 0 [] m)
    as [[tasks|e] m1]; simpl in H1; [|discriminate].
  apply (startBruteLoop_panics E bc Hbc); simpl; lia.
Qed.

Lemma Start_panics_past_four_accounts_witness :
  Start (mkConsts 5 100 2 5 2 3) exampleEnv NewManager = None.
Proof.
  apply (Start_panics_past_four_accounts (mkConsts 5 100 2 5 2 3) exampleEnv
           exampleClients (fun a => mkClient a bruteName brutePassword)
           exampleEnv_clients).
  - intros a _. reflexivity.
  - simpl. lia.
Defined.

(** X20.  [Start] is not undone by a failure: when the client constructor
    fails on the default investor of index [k], [Start] returns that
    error and no task, and the [k] investors built before stay registered
    and keep the credit already granted at the bank. *)
Theorem Start_failure_keeps_admitted :
  forall K E cl k e m,
    (k < Z.to_nat (DefaultWorkers K))%nat ->
    (forall i, (i < k)%nat ->
               clientAt E (nclients m + i) = Ok (cl (nclients m + i)%nat)) ->
    clientAt E (nclients m + k) = Err e ->
    exists m',
      Start K E m = Some (Err e, m')
      /\ investors m'
         = investors m ++ defaultPopulationFrom cl (nclients m) 0 k
      /\ credited m'
         = credited m
           ++ creditGrants (defaultPopulationFrom cl (nclients m) 0 k)
      /\ length (investors m') = (length (investors m) + k)%nat.
Proof.
  intros K E cl k e m Hk Hok Hfail. unfold Start.
  destruct (startDefaultLoop_fails E cl k (Z.to_nat (DefaultWorkers K)) O []
              m e Hk Hok Hfail) as [H1 [H2 H3]].
  change (Z.of_nat 0) with 0 in *.
  destruct (startDefaultLoop E (Z.to_nat (DefaultWorkers K)) 0 [] m)
    as [[tasks|e0] m1]; simpl in H1, H2, H3; [discriminate|].
  inversion H1; subst e0.
  exists m1. split; [reflexivity|]. split; [exact H2|].
  split; [exact H3|].
  rewrite H2, length_app. f_equal. clear. generalize (nclients m) O.
  induction k as [|k IH]; intros a j; simpl; [reflexivity|].
  rewrite IH. reflexivity.
Qed.

Lemma Start_failure_keeps_admitted_witness :
  exists m',
    Start exampleConsts secondFailsEnv NewManager
    = Some (Err (ErrOther "cookiejar.New Failed."%string), m')
    /\ length (investors m') = 1%nat.
Proof.
  destruct (Start_failure_keeps_admitted exampleConsts secondFailsEnv
              exampleClients 1
              (ErrOther "cookiejar.New Failed."%string) NewManager)
    as [m' [H1 [_ [_ H4]]]].
  - simpl. lia.
  - intros i Hi. assert (i = O) by lia. subst i. reflexivity.
  - reflexivity.
  - exists m'. split; [exact H1|exact H4].
Defined.

(** ** The identity queue: backpressure, order and cancellation *)

Lemma run_capacity :
  forall evs s out s' out',
    IdentityQueue.run evs s out = Some (s', out') ->
    (length (IdentityQueue.idlist s) <= IdentityQueue.capacity)%nat ->
    (length (IdentityQueue.idlist s') <= IdentityQueue.capacity)%nat.
Proof.
  induction evs as [|ev evs IH]; intros s out s' out' H Hcap; simpl in H.
  - inversion H; subst. exact Hcap.
  - destruct ev as [id bank| | | |].
    + destruct (IdentityQueue.mint id bank s) as [s1|] eqn:Hm;
        [|discriminate].
      apply (IH _ _ _ _ H). unfold IdentityQueue.mint in Hm.
      destruct (IdentityQueue.returned s); [discriminate|].
      destruct (IdentityQueue.ctxDone s); [discriminate|].
      destruct (IdentityQueue.pending s); [discriminate|].
      inversion Hm; subst. exact Hcap.
    + destruct (IdentityQueue.send s) as [s1|] eqn:Hs; [|discriminate].
      apply (IH _ _ _ _ H). unfold IdentityQueue.send in Hs.
      destruct (IdentityQueue.pending s); [|discriminate].
      destruct (Nat.ltb_spec (length (IdentityQueue.idlist s))
                             IdentityQueue.capacity); [|discriminate].
      inversion Hs; subst. simpl. rewrite length_app. simpl. lia.
    + destruct (IdentityQueue.ret s) as [s1|] eqn:Hr; [|discriminate].
      apply (IH _ _ _ _ H). unfold IdentityQueue.ret in Hr.
      destruct (IdentityQueue.returned s); [discriminate|].
      destruct (IdentityQueue.pending s); [discriminate|].
      destruct (IdentityQueue.ctxDone s); [|discriminate].
      inversion Hr; subst. exact Hcap.
    + apply (IH _ _ _ _ H). exact Hcap.
    + destruct (IdentityQueue.FetchNewID s) as [[id s1]|] eqn:Hf;
        [|discriminate].
      apply (IH _ _ _ _ H). unfold IdentityQueue.FetchNewID in Hf.
      destruct (IdentityQueue.idlist s) as [|id0 rest] eqn:Hl;
        [discriminate|].
      inversion Hf; subst. simpl in *. lia.
Qed.

(** X21.  The channel is the only brake on the prefetch loop: in every
    schedule at most 10 identities are buffered, and the loop has minted at
    most 11 identities more than [FetchNewID] has handed out (ten
    buffered and the one it holds while the send blocks). *)
Theorem prefetch_runs_at_most_eleven_ahead :
  forall evs s' out',
    IdentityQueue.run evs IdentityQueue.init [] = Some (s', out') ->
    (length (IdentityQueue.idlist s') <= 10)%nat
    /\ (length (IdentityQueue.minted evs) <= length out' + 11)%nat.
Proof.
  intros evs s' out' H.
  assert (Hcap : (length (IdentityQueue.idlist s') <= 10)%nat).
  { apply (run_capacity _ _ _ _ _ H). simpl. lia. }
  split; [exact Hcap|].
  apply run_conservation in H. simpl in H. rewrite <- H.
  rewrite length_app. unfold IdentityQueue.held. rewrite length_app.
  destruct (IdentityQueue.pending s'); simpl; lia.
Qed.

Lemma prefetch_runs_at_most_eleven_ahead_witness :
  (length (IdentityQueue.minted rejectedThenFetched) <= 1 + 11)%nat.
Proof.
  apply (proj2 (prefetch_runs_at_most_eleven_ahead rejectedThenFetched
                  (IdentityQueue.mkState [] None [someError] false false)
                  ["rejected-id"%string] eq_refl)).
Defined.

Lemma NoDup_app_disjoint :
  forall (A : Type) (l1 l2 : list A),
    NoDup (l1 ++ l2) ->
    NoDup l1 /\ (forall x, In x l1 -> ~ In x l2).
Proof.
  intros A. induction l1 as [|a l1 IH]; intros l2 H; simpl in *.
  - split; [constructor|intros x []].
  - inversion H as [|? ? Hnotin Hnd]; subst.
    destruct (IH l2 Hnd) as [H1 H2]. split.
    + constructor; [|exact H1]. intros Hin. apply Hnotin.
      apply in_or_app. left. exact Hin.
    + intros x [<-|Hx].
      * intros Hin. apply Hnotin. apply in_or_app. right. exact Hin.
      * apply H2. exact Hx.
Qed.

(** X22.  [FetchNewID] hands identities out in the order the loop minted
    them: what has been handed out is a prefix of the minted sequence.
    If [rand.ID()] never repeats, no identity is handed out twice and none
    that was handed out is still waiting in the channel. *)
Theorem identities_fetched_in_mint_order :
  forall evs s' out',
    IdentityQueue.run evs IdentityQueue.init [] = Some (s', out') ->
    out' = firstn (length out') (IdentityQueue.minted evs)
    /\ (NoDup (IdentityQueue.minted evs) ->
        NoDup out'
        /\ forall id, In id out' -> ~ In id (IdentityQueue.idlist s')).
Proof.
  intros evs s' out' H. apply run_conservation in H. simpl in H.
  split.
  - rewrite <- H, firstn_app, Nat.sub_diag, firstn_all. simpl.
    rewrite app_nil_r. reflexivity.
  - intros Hnd. rewrite <- H in Hnd.
    destruct (NoDup_app_disjoint _ _ _ Hnd) as [H1 H2].
    split; [exact H1|]. intros id Hin Hbuf. apply (H2 id Hin).
    unfold IdentityQueue.held. apply in_or_app. left. exact Hbuf.
Qed.

Lemma identities_fetched_in_mint_order_witness :
  ["a"%string] = firstn 1 (IdentityQueue.minted cancelledSchedule).
Proof.
  apply (proj1 (identities_fetched_in_mint_order cancelledSchedule
                  (IdentityQueue.mkState ["b"%string] None [] true true)
                  ["a"%string] eq_refl)).
Defined.

(** X23.  Cancellation stops the minting and nothing else: once the loop
    has returned no identity is minted or sent any more, the identities
    already buffered are still handed out in order, and a fetch on the
    emptied channel then blocks for good. *)
Theorem returned_loop_only_drains :
  forall evs s out s' out',
    IdentityQueue.returned s = true ->
    IdentityQueue.pending s = None ->
    IdentityQueue.run evs s out = Some (s', out') ->
    IdentityQueue.minted evs = []
    /\ out' ++ IdentityQueue.idlist s' = out ++ IdentityQueue.idlist s
    /\ IdentityQueue.returned s' = true
    /\ (IdentityQueue.idlist s' = [] ->
        forall evs2,
          IdentityQueue.run (IdentityQueue.Fetch :: evs2) s' out' = None).
Proof.
  induction evs as [|ev evs IH]; intros s out s' out' Hret Hp H; simpl in H.
  - inversion H; subst. repeat split; try assumption.
    intros Hnil evs2. simpl. unfold IdentityQueue.FetchNewID.
    rewrite Hnil. reflexivity.
  - destruct ev as [id bank| | | |].
    + unfold IdentityQueue.mint in H. rewrite Hret in H. discriminate.
    + unfold IdentityQueue.send in H. rewrite Hp in H. discriminate.
    + unfold IdentityQueue.ret in H. rewrite Hret in H. discriminate.
    + apply (IH (IdentityQueue.cancel s)); assumption.
    + destruct (IdentityQueue.FetchNewID s) as [[id s1]|] eqn:Hf;
        [|discriminate].
      unfold IdentityQueue.FetchNewID in Hf.
      destruct (IdentityQueue.idlist s) as [|id0 rest] eqn:Hl;
        [discriminate|].
      inversion Hf; subst.
      destruct (IH (IdentityQueue.mkState rest (IdentityQueue.pending s)
                      (IdentityQueue.printed s) (IdentityQueue.ctxDone s)
                      (IdentityQueue.returned s))
                   (out ++ [id]) s' out' Hret Hp H) as [H1 [H2 [H3 H4]]].
      simpl in H2. rewrite <- app_assoc in H2.
      repeat split; assumption.
Qed.

Lemma returned_loop_only_drains_witness :
  IdentityQueue.run [IdentityQueue.Fetch]
                    (IdentityQueue.mkState [] None [] true true)
                    ["a"%string; "b"%string] = None.
Proof.
  apply (proj2 (proj2 (proj2
           (returned_loop_only_drains [IdentityQueue.Fetch]
              (IdentityQueue.mkState ["b"%string] None [] true true)
              ["a"%string]
              (IdentityQueue.mkState [] None [] true true)
              ["a"%string; "b"%string] eq_refl eq_refl eq_refl)))
           eq_refl []).
Defined.
